(** * Bayesian belief network classifier (bbn.py): model and verification

    The development embeds [BBN_Node] and [BBN] of [bbn.py]:

    - Python exceptions are values of [exn], and a computation that may raise
      returns a [result];
    - a query is a Python [dict] from labels to truth symbols (the strings
      't' and 'f'); dictionaries are objects, so they live in an object store
      ([heap]) and are passed around by reference ([loc]), which is what
      makes the difference between [classify] writing into the caller's
      dictionary and writing into a deep copy visible;
    - [self.graph] is a [dict] whose iteration order (insertion order) fixes
      both the order of the unknowns and the order of the factors, so it is an
      association list with the insertion discipline of a Python [dict];
    - probabilities are Python numbers.  The code only multiplies, adds,
      subtracts from one and compares them, so everything structural is
      proved for an arbitrary carrier with those operations ([Number]); the
      carrier is then instantiated with exact rationals and with IEEE
      binary64 for the example network of the script.

    The [verbose] flag only prints; printing is left out of the model of the
    classifier and is modelled apart, with the verbose output. *)

From Stdlib Require Import String Ascii ZArith QArith SpecFloat.
From stdpp Require Import gmap strings list fin_maps.

Close Scope Q_scope.

(** ** Exceptions and results *)

(** The three messages with which the code raises [BadQueryError]. The
    offending variable of the second message is not recorded. *)
Inductive bad_query : Type :=
| QueryIsEmpty                          (* 'Query is empty' *)
| VariableNotInGraph                    (* 'Variable: ... not in graph' *)
| NodeHasNoParents (node_label : string) (* 'Node ... has no parents' *).

Inductive exn : Type :=
| BadQueryError (msg : bad_query)
| KeyError (key : string)     (* d[key] on a dict without that key *)
| TypeError                   (* reduce() of an empty sequence, no initial value *)
| IndexError                  (* popleft() on an empty deque *)
| InvalidReference            (* a reference outside the object store *).

Inductive result (A : Type) : Type :=
| Ok (a : A)
| Raise (e : exn).
Arguments Ok {A} a.
Arguments Raise {A} e.

#[global] Instance bad_query_eq_dec : EqDecision bad_query.
Proof. solve_decision. Defined.

#[global] Instance exn_eq_dec : EqDecision exn.
Proof. solve_decision. Defined.

#[global] Instance result_ret : MRet result := fun _ a => Ok a.
#[global] Instance result_bind : MBind result := fun _ _ f m =>
  match m with
  | Ok a => f a
  | Raise e => Raise e
  end.

Fixpoint mapR {A B : Type} (f : A → result B) (l : list A) : result (list B) :=
  match l with
  | [] => Ok []
  | x :: l' => y ← f x; ys ← mapR f l'; Ok (y :: ys)
  end.

Fixpoint foldR {A B : Type} (f : B → A → result B) (l : list A) (acc : B) : result B :=
  match l with
  | [] => Ok acc
  | x :: l' => acc' ← f acc x; foldR f l' acc'
  end.

(** [d[key]] on a Python dict. *)
Definition getitem {V : Type} (d : gmap string V) (key : string) : result V :=
  match d !! key with
  | Some v => Ok v
  | None => Raise (KeyError key)
  end.

(** [functools.reduce(f, l)] without an initial value. *)
Definition reduce {A : Type} (f : A → A → A) (l : list A) : result A :=
  match l with
  | [] => Raise TypeError
  | x :: l' => Ok (fold_left f l' x)
  end.

(** [''.join(l)] *)
Definition join (l : list string) : string := String.concat EmptyString l.

(** ** Python numbers *)

Class Number (R : Type) : Type := {
  zero : R;                (* the int 0 from which sum() starts *)
  one : R;                 (* the int 1 of [1-prob] *)
  add : R → R → R;
  sub : R → R → R;
  mul : R → R → R;
  gtb : R → R → bool
}.

(** [sum(l)] *)
Definition sum {R : Type} `{Number R} (l : list R) : R := fold_left add l zero.

(** ** The object store *)

Abbreviation dict := (gmap string string).
Abbreviation loc := nat.
Abbreviation heap := (list dict).

Definition M (A : Type) : Type := heap → result A * heap.

#[global] Instance M_ret : MRet M := fun _ a h => (Ok a, h).
#[global] Instance M_bind : MBind M := fun _ _ f m h =>
  match m h with
  | (Ok a, h') => f a h'
  | (Raise e, h') => (Raise e, h')
  end.

Definition lift {A : Type} (r : result A) : M A := fun h => (r, h).

(** Reading the dictionary behind a reference. *)
Definition load (l : loc) : M dict := fun h =>
  match h !! l with
  | Some d => (Ok d, h)
  | None => (Raise InvalidReference, h)
  end.

(** [l[key] = val] *)
Definition setitem (l : loc) (key val : string) : M unit := fun h =>
  match h !! l with
  | Some d => (Ok tt, <[l := <[key := val]> d]> h)
  | None => (Raise InvalidReference, h)
  end.

(** [copy.deepcopy(l)]: a new object with the same bindings (the values are
    immutable strings). *)
Definition deepcopy (l : loc) : M loc := fun h =>
  match h !! l with
  | Some d => (Ok (length h), h ++ [d])
  | None => (Raise InvalidReference, h)
  end.

Fixpoint foldM {A B : Type} (f : B → A → M B) (l : list A) (acc : B) : M B :=
  match l with
  | [] => mret acc
  | x :: l' => acc' ← f acc x; foldM f l' acc'
  end.

(** [for _ in range(n): x = f(x)] *)
Fixpoint repeatM {A : Type} (n : nat) (f : A → M A) (x : A) : M A :=
  match n with
  | O => mret x
  | S n' => y ← f x; repeatM n' f y
  end.

(** ** Insertion-ordered dictionaries *)

(** [d[key] = v] on a Python dict seen as the list of its items: an existing
    key keeps its position, a new key goes last. *)
Fixpoint dict_set {V : Type} (d : list (string * V)) (key : string) (v : V)
  : list (string * V) :=
  match d with
  | [] => [(key, v)]
  | (k, w) :: d' =>
      if bool_decide (k = key) then (k, v) :: d' else (k, w) :: dict_set d' key v
  end.

(** ** Truth assignments over the unknowns *)

(** The truth symbol of a Boolean. *)
Definition sym (b : bool) : string := if b then "t" else "f".

(** All truth assignments over [k] variables, the first variable being the
    most significant and true coming before false. *)
Fixpoint assignments (k : nat) : list (list bool) :=
  match k with
  | O => [[]]
  | S k' => map (cons true) (assignments k') ++ map (cons false) (assignments k')
  end.

(** The query [d] extended by the bindings [us := bs], written in that order. *)
Fixpoint extend (d : dict) (us : list string) (bs : list bool) : dict :=
  match us, bs with
  | u :: us', b :: bs' => extend (<[u := sym b]> d) us' bs'
  | _, _ => d
  end.

(** The completions of [d] over the unknowns [us]. *)
Definition completions (d : dict) (us : list string) : list dict :=
  map (extend d us) (assignments (length us)).

(** [cells h ls cs]: in the store [h], the references [ls] hold the
    dictionaries [cs]. *)
Definition cells (h : heap) (ls : list loc) (cs : list dict) : Prop :=
  Forall2 (λ l c, h !! l = Some c) ls cs.

(** What one unknown does to the working collection of [_build_queries]. *)
Definition double (u : string) (cs : list dict) : list dict :=
  flat_map (λ c, [<[u := "t"]> c; <[u := "f"]> c]) cs.

Section Network.
Context {R : Type} `{Number R}.

(** ** class BBN_Node *)

Record BBN_Node : Type := {
  p_table : gmap string R;
  label : string;
  parents : list string
}.

Definition get_prob (self : BBN_Node) (val parents_vals : string) : result R :=
  if bool_decide (parents self = []) && negb (bool_decide (parents_vals = EmptyString))
  then Raise (BadQueryError (NodeHasNoParents (label self)))
  else if bool_decide (parents self = []) then
    prob ← getitem (p_table self) "t";
    Ok (if bool_decide (val = "t") then prob else sub one prob)
  else
    prob ← getitem (p_table self) parents_vals;
    Ok (if bool_decide (val = "t") then prob else sub one prob).

Definition has_parents (self : BBN_Node) : bool :=
  negb (bool_decide (parents self = [])).

(** ** class BBN *)

Record BBN : Type := {
  verbose : bool;
  target : string;
  vars : list string;
  graph : list (string * BBN_Node)
}.

Definition BBN_init (nodes : list BBN_Node) (tgt : string) (vb : bool) : BBN :=
  {| verbose := vb;
     target := tgt;
     vars := map label (filter (λ node, label node ≠ tgt) nodes);
     graph := fold_left (λ g node, dict_set g (label node) node) nodes [] |}.

(** [node in self.graph] *)
Definition in_graph (self : BBN) (node : string) : bool :=
  bool_decide (node ∈ map fst (graph self)).

(** One turn of the loop of [_query]. *)
Definition _query_step (q : dict) (probs : list R) (item : string * BBN_Node)
  : result (list R) :=
  let '(node, cn) := item in
  if has_parents cn then
    vals ← mapR (getitem q) (parents cn);
    let p_vals := join vals in
    val ← getitem q node;
    p ← get_prob cn val p_vals;
    Ok (probs ++ [p])
  else Ok probs.

Definition _query (self : BBN) (q : dict) : result R :=
  probs ← foldR (_query_step q) (graph self) [];
  reduce mul probs.

Definition _get_unknowns (self : BBN) (query : dict) : list string :=
  filter (λ node, query !! node = None ∧ node ≠ target self) (map fst (graph self)).

(** One turn of the inner loop of [_build_queries]; the deque is the list of
    its elements, left end first. *)
Definition _build_queries_step (u : string) (queries : list loc) : M (list loc) :=
  match queries with
  | [] => lift (Raise IndexError)
  | current_query :: rest =>
      tv ← deepcopy current_query;
      _ ← setitem tv u "t";
      fv ← deepcopy current_query;
      _ ← setitem fv u "f";
      mret (rest ++ [tv; fv])
  end.

Definition _build_queries (q : loc) (unknowns : list string) : M (list loc) :=
  foldM (λ queries u, repeatM (length queries) (_build_queries_step u) queries)
        unknowns [q].

Definition _classify_all_evidence (self : BBN) (q : loc) : M bool :=
  _ ← setitem q (target self) "t";
  d ← load q;
  yes ← lift (_query self d);
  _ ← setitem q (target self) "f";
  d ← load q;
  no ← lift (_query self d);
  mret (gtb yes no).

(** One turn of the loop of [_classify_partial_evidence]; the accumulator is
    the pair of lists [target_true_probs], [target_false_probs]. *)
Definition _classify_partial_step (self : BBN) (acc : list R * list R) (query : loc)
  : M (list R * list R) :=
  let '(target_true_probs, target_false_probs) := acc in
  _ ← setitem query (target self) "t";
  d ← load query;
  pt ← lift (_query self d);
  _ ← setitem query (target self) "f";
  d ← load query;
  pf ← lift (_query self d);
  mret (target_true_probs ++ [pt], target_false_probs ++ [pf]).

Definition _classify_partial_evidence (self : BBN) (q : loc) (unknowns : list string)
  : M bool :=
  queries ← _build_queries q unknowns;
  acc ← foldM (_classify_partial_step self) queries ([], []);
  mret (gtb (sum acc.1) (sum acc.2)).

Definition classify (self : BBN) (q : loc) : M bool :=
  d ← load q;
  if bool_decide (d = ∅) then lift (Raise (BadQueryError QueryIsEmpty))
  else if negb (forallb (in_graph self) (map fst (map_to_list d)))
  then lift (Raise (BadQueryError VariableNotInGraph))
  else
    let unknowns := _get_unknowns self d in
    if bool_decide (unknowns = []) then _classify_all_evidence self q
    else _classify_partial_evidence self q unknowns.

(** ** The quantities the classifier is meant to compute *)

(** The conditional factor of one node under the assignment [q]:
    [get_prob] at the node's own value and at the concatenated values of its
    parents, in declared order. *)
Definition factor (q : dict) (item : string * BBN_Node) : result R :=
  vals ← mapR (getitem q) (parents item.2);
  val ← getitem q item.1;
  get_prob item.2 val (join vals).

(** The nodes that have parents, in the order of the graph. *)
Definition scored_nodes (self : BBN) : list (string * BBN_Node) :=
  filter (λ item, parents item.2 ≠ []) (graph self).

(** The score of [c] with the target bound to [v]. *)
Definition score (self : BBN) (v : string) (c : dict) : result R :=
  _query self (<[target self := v]> c).

(** Both scores of a completion, true first. *)
Definition score2 (self : BBN) (c : dict) : result (R * R) :=
  pt ← score self "t" c;
  pf ← score self "f" c;
  Ok (pt, pf).

(** A query passes the checks of [classify]. *)
Definition valid_query (self : BBN) (d : dict) : Prop :=
  d ≠ ∅ ∧ ∀ var, is_Some (d !! var) → var ∈ map fst (graph self).

End Network.

Arguments BBN_Node R : clear implicits.
Arguments BBN R : clear implicits.

(** A dictionary binds every label the scoring loop reads: each node of the
    graph and each of its parents. *)
Definition fully_bound {R : Type} (self : BBN R) (q : dict) : Prop :=
  Forall (λ item, is_Some (q !! item.1) ∧ Forall (λ p, is_Some (q !! p)) (parents item.2))
         (graph self).

(** ** Two carriers for the probabilities *)

(** Exact rationals: what the arithmetic means. *)
#[global] Instance Q_Number : Number Q := {|
  zero := 0%Q;
  one := 1%Q;
  add := Qplus;
  sub := Qminus;
  mul := Qmult;
  gtb := λ x y, match (y ?= x)%Q with Lt => true | _ => false end
|}.

(** IEEE 754 binary64 with rounding to nearest even: what a Python [float]
    is. [b64_lit n d] is the float denoted by the decimal literal [n/d] when
    [n] and [d] are small enough to be floats themselves: the division is
    correctly rounded. *)
Definition b64_of_Z (n : Z) : spec_float := binary_normalize 53 1024 n 0 false.

Definition b64_lit (n : Z) (d : positive) : spec_float :=
  SFdiv 53 1024 (b64_of_Z n) (b64_of_Z (Z.pos d)).

#[global] Instance binary64_Number : Number spec_float := {|
  zero := b64_of_Z 0;
  one := b64_of_Z 1;
  add := SFadd 53 1024;
  sub := SFsub 53 1024;
  mul := SFmul 53 1024;
  gtb := λ x y, SFltb y x
|}.

(** ** The network of the script *)

Module main.
Section Nodes.
Context {R : Type} (lit : Z → positive → R).

Definition e : BBN_Node R :=
  {| p_table := {[ "t" := lit 7 10 ]}; label := "e"; parents := [] |}.

Definition d : BBN_Node R :=
  {| p_table := {[ "t" := lit 25 100 ]}; label := "d"; parents := [] |}.

Definition hd : BBN_Node R :=
  {| p_table := <["tt" := lit 25 100]> (<["tf" := lit 45 100]>
                 (<["ft" := lit 55 100]> {[ "ff" := lit 75 100 ]}));
     label := "hd"; parents := ["e"; "d"] |}.

Definition cp : BBN_Node R :=
  {| p_table := <["t" := lit 8 10]> {[ "f" := lit 1 100 ]};
     label := "cp"; parents := ["hd"] |}.

Definition bp : BBN_Node R :=
  {| p_table := <["t" := lit 85 100]> {[ "f" := lit 2 10 ]};
     label := "bp"; parents := ["hd"] |}.

Definition bbn : BBN R := BBN_init [e; d; hd; cp; bp] "hd" true.

End Nodes.

Definition query : dict :=
  <["e" := "f"]> (<["d" := "t"]> (<["cp" := "t"]> {[ "bp" := "t" ]})).

(** The same evidence without [d]. *)
Definition query_partial : dict :=
  <["e" := "f"]> (<["cp" := "t"]> {[ "bp" := "t" ]}).

End main.

(** ** Further networks and nodes *)

Module inputs.

(** A node with a parent whose table has an entry for the empty key. *)
Definition lone : BBN_Node Q :=
  {| p_table := {[ EmptyString := (1 # 2)%Q ]}; label := "a"; parents := ["b"] |}.

(** A root [b] and a node [a] whose parent [zz] is not a node. *)
Definition dangling : BBN Q :=
  BBN_init [ {| p_table := {[ "t" := (1 # 2)%Q ]}; label := "b"; parents := [] |};
             {| p_table := {[ "t" := (1 # 2)%Q ]}; label := "a"; parents := ["zz"] |} ]
           "a" false.

(** The network of the script without the entry 'ft' of [hd]. *)
Definition incomplete_hd : BBN_Node Q :=
  {| p_table := <["tt" := (25 # 100)%Q]> (<["tf" := (45 # 100)%Q]>
                 {[ "ff" := (75 # 100)%Q ]});
     label := "hd"; parents := ["e"; "d"] |}.

Definition incomplete : BBN Q :=
  BBN_init [main.e Qmake; main.d Qmake; incomplete_hd; main.cp Qmake; main.bp Qmake]
           "hd" false.

(** The two roots of the script alone. *)
Definition roots : BBN Q := BBN_init [main.e Qmake; main.d Qmake] "e" false.

End inputs.

(** ** The outcome of a classification as a function of the query *)

Section Outcome.
Context {R : Type} `{Number R}.

(** What [classify] answers on the query [d], read off the two paths: the
    comparison of the two scores without unknowns, the comparison of the two
    sums over the completions otherwise. *)
Definition classify_result (self : BBN R) (d : dict) : result bool :=
  if bool_decide (d = ∅) then Raise (BadQueryError QueryIsEmpty)
  else if negb (forallb (in_graph self) (map fst (map_to_list d)))
  then Raise (BadQueryError VariableNotInGraph)
  else if bool_decide (_get_unknowns self d = []) then
    yes ← score self "t" d;
    no ← score self "f" d;
    Ok (gtb yes no)
  else
    pairs ← mapR (score2 self) (completions d (_get_unknowns self d));
    Ok (gtb (sum pairs.*1) (sum pairs.*2)).

(** Two networks that [_query] cannot tell apart: same labels in the same
    order, same parents, and same tables on the nodes that have parents. *)
Definition same_scoring (self self' : BBN R) : Prop :=
  target self = target self'
  ∧ Forall2 (λ a b, a.1 = b.1 ∧ parents a.2 = parents b.2
                    ∧ (parents a.2 ≠ [] → p_table a.2 = p_table b.2))
            (graph self) (graph self').

End Outcome.

(** ** The verbose output *)

(** A computation that prints: its outcome and the lines it printed, in
    order. [W] is for code that does not touch the store, [MT] for code that
    does. *)
Definition W (A : Type) : Type := result A * list string.

#[global] Instance W_ret : MRet W := λ _ a, (Ok a, []).
#[global] Instance W_bind : MBind W := λ _ _ f m,
  match m with
  | (Ok a, out) => let '(r, out') := f a in (r, out ++ out')
  | (Raise e, out) => (Raise e, out)
  end.

Definition MT (A : Type) : Type := heap → result A * heap * list string.

#[global] Instance MT_ret : MRet MT := λ _ a h, (Ok a, h, []).
#[global] Instance MT_bind : MBind MT := λ _ _ f m h,
  match m h with
  | (Ok a, h', out) => let '(r, out') := f a h' in (r, out ++ out')
  | (Raise e, h', out) => (Raise e, h', out)
  end.

(** [print(line)] *)
Definition print (line : string) : W unit := (Ok tt, [line]).

Definition quiet {A : Type} (r : result A) : W A := (r, []).
Definition liftW {A : Type} (w : W A) : MT A := λ h, (w.1, h, w.2).
Definition liftM {A : Type} (m : M A) : MT A := λ h, (m h, []).

Fixpoint foldW {A B : Type} (f : B → A → W B) (l : list A) (acc : B) : W B :=
  match l with
  | [] => mret acc
  | x :: l' => acc' ← f acc x; foldW f l' acc'
  end.

Fixpoint foldMT {A B : Type} (f : B → A → MT B) (l : list A) (acc : B) : MT B :=
  match l with
  | [] => mret acc
  | x :: l' => acc' ← f acc x; foldMT f l' acc'
  end.

Section Verbose.
Context {R : Type} `{Number R}.
(** The text of a number in an f-string. *)
Context (show : R → string).

(** One turn of the loop of [_query], with what it prints. *)
Definition _query_step_print (self : BBN R) (q : dict) (probs : list R)
  (item : string * BBN_Node R) : W (list R) :=
  let '(node, cn) := item in
  if has_parents cn then
    vals ← quiet (mapR (getitem q) (parents cn));
    let p_vals := join vals in
    val ← quiet (getitem q node);
    p ← quiet (get_prob cn val p_vals);
    _ ← (if verbose self then
           shown ← quiet (mapR (λ p', v ← getitem q p'; Ok (p' +:+ "=" +:+ v))
                               (parents cn));
           let ps := String.concat "," shown in
           val' ← quiet (getitem q node);
           print ("(" +:+ node +:+ "=" +:+ val' +:+ "| " +:+ ps +:+ "): " +:+ show p)
         else mret tt);
    mret (probs ++ [p])
  else mret probs.

Definition _query_print (self : BBN R) (q : dict) : W R :=
  probs ← foldW (_query_step_print self q) (graph self) [];
  _ ← (if verbose self then print EmptyString else mret tt);
  quiet (reduce mul probs).

Definition _classify_all_evidence_print (self : BBN R) (q : loc) : MT bool :=
  _ ← liftM (setitem q (target self) "t");
  d ← liftM (load q);
  yes ← liftW (_query_print self d);
  _ ← liftM (setitem q (target self) "f");
  d ← liftM (load q);
  no ← liftW (_query_print self d);
  _ ← liftW (if verbose self then
               _ ← print EmptyString;
               _ ← print ("P(yes):" +:+ show yes);
               print ("P(no):" +:+ show no)
             else mret tt);
  mret (gtb yes no).

Definition _classify_partial_step_print (self : BBN R) (acc : list R * list R)
  (query : loc) : MT (list R * list R) :=
  let '(target_true_probs, target_false_probs) := acc in
  _ ← liftM (setitem query (target self) "t");
  d ← liftM (load query);
  pt ← liftW (_query_print self d);
  _ ← liftM (setitem query (target self) "f");
  d ← liftM (load query);
  pf ← liftW (_query_print self d);
  mret (target_true_probs ++ [pt], target_false_probs ++ [pf]).

Definition _classify_partial_evidence_print (self : BBN R) (q : loc)
  (unknowns : list string) : MT bool :=
  queries ← liftM (_build_queries q unknowns);
  acc ← foldMT (_classify_partial_step_print self) queries ([], []);
  mret (gtb (sum acc.1) (sum acc.2)).

Definition classify_print (self : BBN R) (q : loc) : MT bool :=
  d ← liftM (load q);
  if bool_decide (d = ∅) then liftM (lift (Raise (BadQueryError QueryIsEmpty)))
  else if negb (forallb (in_graph self) (map fst (map_to_list d)))
  then liftM (lift (Raise (BadQueryError VariableNotInGraph)))
  else
    let unknowns := _get_unknowns self d in
    if bool_decide (unknowns = []) then _classify_all_evidence_print self q
    else _classify_partial_evidence_print self q unknowns.

Definition classify_verbose (self : BBN R) (q : loc) : MT unit :=
  b ← classify_print self q;
  if b : bool then liftW (print (target self +:+ ": True"))
  else liftW (print (target self +:+ ": False")).

End Verbose.

(** * The rule inducer (prism.py): the parts that do not go through pandas *)

From Stdlib Require Import DecimalString.

Module Prism.

(** [d.get(key)] on a Python dict seen as the list of its items. *)
Fixpoint dict_get {V : Type} (d : list (string * V)) (key : string) : option V :=
  match d with
  | [] => None
  | (k, v) :: d' => if bool_decide (k = key) then Some v else dict_get d' key
  end.

(** [d[key]] on such a dict. *)
Definition dict_getitem {V : Type} (d : list (string * V)) (key : string) : result V :=
  match dict_get d key with
  | Some v => Ok v
  | None => Raise (KeyError key)
  end.

(** [str(n)] for a natural number, [chr(n)] for a code below 256. *)
Definition str (n : nat) : string := NilEmpty.string_of_uint (Nat.to_uint n).
Definition chr (n : nat) : string := String (ascii_of_nat n) EmptyString.

(** The name given to column [i] of a file without header line, in
    [read_data_csv]:
    [chr(i%26+65) + (str((i//26) % 26) if i//26 != 0 else '')]. *)
Definition column_name (i : nat) : string :=
  chr (i mod 26 + 65)
  +:+ (if bool_decide (i / 26 ≠ 0) then str ((i / 26) mod 26) else EmptyString).

(** [[... for i in range(n)]] *)
Definition column_names (n : nat) : list string := map column_name (seq 0 n).

(** The dict [{'tot': ..., 'cnt': ...}] kept for an (attribute, value) pair. *)
Record counter : Type := { tot : nat; cnt : nat }.

(** A row of the data frame: the value of each column, as text. *)
Abbreviation row := (gmap string string).

(** [counts]: for each attribute, for each value, its counter. *)
Abbreviation counts_t := (list (string * list (string * counter))).

Definition __increment_counts (class_column : string) (counts : counts_t)
  (r : row) (attr curr_class : string) : result counts_t :=
  inner ← dict_getitem counts attr;
  value ← getitem r attr;
  counts ← (match dict_get inner value with
            | None => Ok (dict_set counts attr
                            (dict_set inner value {| tot := 1; cnt := 0 |}))
            | Some c => Ok (dict_set counts attr
                              (dict_set inner value {| tot := S (tot c); cnt := cnt c |}))
            end);
  cls ← getitem r class_column;
  if bool_decide (cls = curr_class) then
    inner ← dict_getitem counts attr;
    value ← getitem r attr;
    c ← dict_getitem inner value;
    Ok (dict_set counts attr (dict_set inner value {| tot := tot c; cnt := S (cnt c) |}))
  else Ok counts.

(** The counting loops of [generate_rules]:
    [counts = {}; for attr in curr_attr_list: counts[attr] = {};
     for idx, row in curr_df.iterrows(): self.__increment_counts(...)] *)
Definition count_rows (class_column : string) (rows : list row) (attr curr_class : string)
  (counts : counts_t) : result counts_t :=
  foldR (λ counts r, __increment_counts class_column counts r attr curr_class)
        rows (dict_set counts attr []).

Definition count_values (class_column : string) (rows : list row)
  (curr_attr_list : list string) (curr_class : string) : result counts_t :=
  foldR (λ counts attr, count_rows class_column rows attr curr_class counts)
        curr_attr_list [].

(** The number of rows with the value [v] in column [attr], and the number of
    those that are of the class [cls]. *)
Definition rows_with (attr v : string) (rows : list row) : list row :=
  filter (λ r, r !! attr = Some v) rows.

Definition rows_with_class (class_column attr v cls : string) (rows : list row)
  : list row :=
  filter (λ r, r !! attr = Some v ∧ r !! class_column = Some cls) rows.

(** The counter of a value after [t] more rows with it, [c] of them of the
    class. *)
Definition bump (o : option counter) (t c : nat) : option counter :=
  match o with
  | Some x => Some {| tot := tot x + t; cnt := cnt x + c |}
  | None => match t with
            | O => None
            | S _ => Some {| tot := t; cnt := c |}
            end
  end.

End Prism.

(** ** Further inputs *)

Module samples.

(** The network of the script with other tables for the two roots. *)
Definition other_priors : BBN Q :=
  BBN_init [ {| p_table := {[ "t" := (1 # 2)%Q ]}; label := "e"; parents := [] |};
             {| p_table := ∅; label := "d"; parents := [] |};
             main.hd Qmake; main.cp Qmake; main.bp Qmake ]
           "hd" true.

(** The network of the script with its nodes given in the opposite order. *)
Definition reordered : BBN Q :=
  BBN_init [main.bp Qmake; main.cp Qmake; main.hd Qmake; main.d Qmake; main.e Qmake]
           "hd" true.

(** Three rows of a data frame with the columns [A] and [B], the class
    column being [B]. *)
Definition rows : list Prism.row :=
  [ <["A" := "x"]> {[ "B" := "yes" ]};
    <["A" := "x"]> {[ "B" := "no" ]};
    <["A" := "y"]> {[ "B" := "yes" ]} ].

End samples.

(** * Verification *)

(** ** Results *)

Lemma mapR_Raise {A B : Type} (f : A → result B) l e :
  mapR f l = Raise e → ∃ x, x ∈ l ∧ f x = Raise e.
Proof.
  induction l as [|x l IH]; cbn [mapR]; [done|].
  destruct (f x) as [y|e'] eqn:Hfx; cbn.
  - destruct (mapR f l) as [ys|e']; cbn; [done|]. intros [= ->].
    destruct IH as (x' & Hin & Hx'); [done|]. exists x'. split; [|done].
    by apply list_elem_of_further.
  - intros [= ->]. exists x. split; [apply list_elem_of_here|done].
Qed.

Lemma mapR_Ok {A B : Type} (f : A → result B) l ys :
  mapR f l = Ok ys ↔ Forall2 (λ x y, f x = Ok y) l ys.
Proof.
  revert ys. induction l as [|x l IH]; intros ys; cbn [mapR].
  - split; [intros [= <-]; constructor|]. by intros ->%Forall2_nil_inv_l.
  - split.
    + destruct (f x) as [y|e] eqn:Hfx; cbn; [|done].
      destruct (mapR f l) as [ys'|e]; cbn; [|done]. intros [= <-].
      constructor; [done|]. by apply IH.
    + intros (y & ys' & Hfx & Hl & ->)%Forall2_cons_inv_l.
      rewrite Hfx. cbn. apply IH in Hl. by rewrite Hl.
Qed.

Lemma mapR_length {A B : Type} (f : A → result B) l ys :
  mapR f l = Ok ys → length ys = length l.
Proof. intros Hm%mapR_Ok. symmetry. by eapply Forall2_length. Qed.

Lemma getitem_exn {V : Type} (d : gmap string V) key e :
  getitem d key = Raise e → e = KeyError key.
Proof. unfold getitem. destruct (d !! key); [done|]. by intros [= <-]. Qed.

(** ** Truth assignments *)

Lemma assignments_length k : length (assignments k) = 2 ^ k.
Proof.
  induction k as [|k IH]; [done|].
  cbn [assignments]. rewrite length_app, !length_map, IH.
  rewrite Nat.pow_succ_r'. lia.
Qed.

Lemma assignments_each_length k bs : bs ∈ assignments k → length bs = k.
Proof.
  revert bs. induction k as [|k IH]; intros bs; cbn [assignments].
  - intros ->%list_elem_of_singleton. done.
  - rewrite elem_of_app, !list_elem_of_fmap.
    intros [(bs' & -> & Hin)|(bs' & -> & Hin)]; cbn; f_equal; auto.
Qed.

Lemma assignments_complete bs : bs ∈ assignments (length bs).
Proof.
  induction bs as [|b bs IH]; cbn [length assignments]; [apply list_elem_of_here|].
  rewrite elem_of_app, !list_elem_of_fmap. destruct b; [left|right]; eauto.
Qed.

Lemma assignments_NoDup k : NoDup (assignments k).
Proof.
  induction k as [|k IH]; cbn [assignments]; [apply NoDup_singleton|].
  apply NoDup_app. split_and!.
  - apply (NoDup_fmap_2 _). done.
  - intros bs (x & -> & _)%list_elem_of_fmap (y & ? & _)%list_elem_of_fmap. done.
  - apply (NoDup_fmap_2 _). done.
Qed.

(** ** Extending a query *)

Lemma sym_inj b b' : sym b = sym b' → b = b'.
Proof. by destruct b, b'. Qed.

Lemma extend_lookup_notin d us bs u :
  u ∉ us → extend d us bs !! u = d !! u.
Proof.
  revert d bs. induction us as [|u' us IH]; intros d bs Hu; [done|].
  destruct bs as [|b bs]; [done|]. cbn [extend].
  apply not_elem_of_cons in Hu as [Hne Hu].
  rewrite IH by done. by rewrite lookup_insert_ne.
Qed.

Lemma extend_lookup d us bs i u b :
  NoDup us → us !! i = Some u → bs !! i = Some b →
  extend d us bs !! u = Some (sym b).
Proof.
  revert d bs i. induction us as [|u' us IH]; intros d bs i Hnd Hu Hb; [done|].
  destruct bs as [|b' bs]; [done|]. cbn [extend].
  apply NoDup_cons in Hnd as [Hnotin Hnd].
  destruct i as [|i]; cbn in Hu, Hb.
  - injection Hu as ->. injection Hb as ->.
    rewrite extend_lookup_notin by done. apply lookup_insert_eq.
  - by eapply IH.
Qed.

Lemma extend_inj d us bs bs' :
  NoDup us → length bs = length us → length bs' = length us →
  extend d us bs = extend d us bs' → bs = bs'.
Proof.
  intros Hnd Hl Hl' Heq. apply list_eq. intros i.
  destruct (us !! i) as [u|] eqn:Hu.
  - destruct (lookup_lt_is_Some_2 bs i) as [b Hb].
    { rewrite Hl. by eapply lookup_lt_Some. }
    destruct (lookup_lt_is_Some_2 bs' i) as [b' Hb'].
    { rewrite Hl'. by eapply lookup_lt_Some. }
    pose proof (extend_lookup d us bs i u b Hnd Hu Hb) as H1.
    pose proof (extend_lookup d us bs' i u b' Hnd Hu Hb') as H2.
    rewrite Heq, H2 in H1. injection H1 as ->%sym_inj. by rewrite Hb, Hb'.
  - apply lookup_ge_None in Hu.
    rewrite !(proj2 (lookup_ge_None _ _)); [done|lia..].
Qed.

Lemma completions_length d us : length (completions d us) = 2 ^ length us.
Proof. unfold completions. by rewrite length_map, assignments_length. Qed.

Lemma completions_NoDup d us : NoDup us → NoDup (completions d us).
Proof.
  intros Hnd. unfold completions.
  apply NoDup_fmap_2_strong; [|apply assignments_NoDup].
  intros bs bs' Hin Hin' Heq.
  apply (extend_inj d us); auto using assignments_each_length.
Qed.

(** The working collection after all unknowns, by doubling, is the list of
    completions. *)
Lemma double_completions us cs :
  fold_left (λ cs u, double u cs) us cs = flat_map (λ c, completions c us) cs.
Proof.
  revert cs. induction us as [|u us IH]; intros cs; cbn [fold_left].
  - unfold completions. cbn. induction cs as [|c cs IHcs]; cbn; [done|].
    by rewrite <- IHcs.
  - rewrite IH. unfold double. induction cs as [|c cs IHcs]; [done|].
    cbn [flat_map]. rewrite flat_map_app, IHcs. f_equal.
    cbn [flat_map app]. rewrite app_nil_r.
    unfold completions. cbn [length assignments].
    rewrite map_app, !map_map. done.
Qed.

Lemma double_length u cs : length (double u cs) = 2 * length cs.
Proof.
  unfold double. induction cs as [|c cs IH]; cbn [flat_map length app]; lia.
Qed.

(** ** The object store *)

Lemma M_bind_eq {A B : Type} (m : M A) (f : A → M B) h :
  (m ≫= f) h =
  match m h with
  | (Ok a, h') => f a h'
  | (Raise e, h') => (Raise e, h')
  end.
Proof. done. Qed.

Lemma load_ok l h d : h !! l = Some d → load l h = (Ok d, h).
Proof. unfold load. by intros ->. Qed.

Lemma setitem_ok l key val h d :
  h !! l = Some d → setitem l key val h = (Ok tt, <[l := <[key := val]> d]> h).
Proof. unfold setitem. by intros ->. Qed.

Lemma deepcopy_ok l h d :
  h !! l = Some d → deepcopy l h = (Ok (length h), h ++ [d]).
Proof. unfold deepcopy. by intros ->. Qed.

Lemma cells_app_l h h' ls cs : cells h ls cs → cells (h ++ h') ls cs.
Proof.
  unfold cells. intros Hc. eapply Forall2_impl; [exact Hc|].
  intros l c Hl. cbn beta in Hl |- *.
  rewrite lookup_app_l; [done|]. by eapply lookup_lt_Some.
Qed.

Lemma cells_frame h h' ls cs :
  (∀ l, l ∈ ls → h' !! l = h !! l) → cells h ls cs → cells h' ls cs.
Proof.
  unfold cells. intros Hf Hc. induction Hc as [|l c ls cs Hl Hc IH]; constructor.
  - rewrite Hf; [done|]. apply list_elem_of_here.
  - apply IH. intros l' Hl'. apply Hf. by apply list_elem_of_further.
Qed.

Lemma cells_length h ls cs : cells h ls cs → length ls = length cs.
Proof. apply Forall2_length. Qed.

Lemma cells_seq h cs : cells (h ++ cs) (seq (length h) (length cs)) cs.
Proof.
  revert h. induction cs as [|c cs IH]; intros h; [constructor|].
  cbn [length seq]. constructor; [by apply list_lookup_middle|].
  specialize (IH (h ++ [c])). rewrite length_app, <- app_assoc in IH.
  cbn in IH. by rewrite Nat.add_1_r in IH.
Qed.

(** ** [_build_queries] *)

Lemma _build_queries_step_ok u l rest h d :
  h !! l = Some d →
  _build_queries_step u (l :: rest) h
  = (Ok (rest ++ [length h; S (length h)]),
     h ++ [<[u := "t"]> d; <[u := "f"]> d]).
Proof.
  intros Hl. unfold _build_queries_step.
  rewrite M_bind_eq, (deepcopy_ok _ _ _ Hl).
  rewrite M_bind_eq, (setitem_ok _ _ _ _ d) by (by apply list_lookup_middle).
  rewrite insert_app_r_alt, Nat.sub_diag by done. cbn [insert list_insert].
  assert ((h ++ [<[u := "t"]> d]) !! l = Some d) as Hl'.
  { rewrite lookup_app_l; [done|]. by eapply lookup_lt_Some. }
  rewrite M_bind_eq, (deepcopy_ok _ _ _ Hl').
  rewrite M_bind_eq, (setitem_ok _ _ _ _ d) by (by apply list_lookup_middle).
  rewrite insert_app_r_alt, Nat.sub_diag by done. cbn [insert list_insert].
  cbn. rewrite length_app, <- app_assoc. cbn. by rewrite Nat.add_1_r.
Qed.

(** The inner loop: the [front] of the deque is consumed and replaced, at the
    right end, by two fresh copies of each of its dictionaries. *)
Lemma _build_queries_inner u front back cs h :
  cells h front cs →
  repeatM (length front) (_build_queries_step u) (front ++ back) h
  = (Ok (back ++ seq (length h) (2 * length front)), h ++ double u cs).
Proof.
  revert back cs h. induction front as [|l front IH]; intros back cs h Hc.
  - apply Forall2_nil_inv_l in Hc as ->. cbn. by rewrite !app_nil_r.
  - apply Forall2_cons_inv_l in Hc as (c & cs' & Hl & Hc & ->).
    cbn [length repeatM app]. rewrite M_bind_eq.
    rewrite (_build_queries_step_ok _ _ _ _ _ Hl).
    rewrite <- app_assoc.
    rewrite (IH _ cs') by by apply cells_app_l.
    unfold double. cbn [flat_map]. rewrite <- !app_assoc. f_equal.
    f_equal. rewrite length_app. cbn [length app].
    replace (2 * S (length front)) with (S (S (2 * length front))) by lia.
    cbn [seq]. by replace (length h + 2) with (S (S (length h))) by lia.
Qed.

(** The outer loop, from any working collection [ls] holding [cs]. *)
Lemma _build_queries_outer us ls cs h :
  cells h ls cs → NoDup ls →
  ∃ ls' h',
    foldM (λ queries u, repeatM (length queries) (_build_queries_step u) queries)
          us ls h = (Ok ls', h ++ h')
    ∧ cells (h ++ h') ls' (fold_left (λ cs u, double u cs) us cs)
    ∧ NoDup ls'
    ∧ (us = [] → ls' = ls ∧ h' = [])
    ∧ (us ≠ [] → ∀ l, l ∈ ls' → length h ≤ l).
Proof.
  revert ls cs h. induction us as [|u us IH]; intros ls cs h Hc Hnd.
  - exists ls, []. rewrite app_nil_r. by split_and!.
  - cbn [foldM fold_left]. rewrite M_bind_eq.
    pose proof (_build_queries_inner u ls [] cs h Hc) as Hin.
    rewrite app_nil_r in Hin. rewrite Hin. cbn [app].
    destruct (IH (seq (length h) (2 * length ls)) (double u cs) (h ++ double u cs))
      as (ls' & h' & Hrun & Hc' & Hnd' & Hnil & Hfresh).
    { rewrite (cells_length _ _ _ Hc), <- (double_length u cs). apply cells_seq. }
    { apply NoDup_seq. }
    exists ls', (double u cs ++ h'). rewrite app_assoc. split_and!; try done.
    intros _ l Hl. destruct us as [|u' us].
    + destruct Hnil as [-> _]; [done|]. apply elem_of_seq in Hl. lia.
    + specialize (Hfresh ltac:(done) l Hl). rewrite length_app in Hfresh. lia.
Qed.

Lemma _build_queries_spec q us h d :
  h !! q = Some d →
  ∃ ls h',
    _build_queries q us h = (Ok ls, h ++ h')
    ∧ cells (h ++ h') ls (completions d us)
    ∧ NoDup ls
    ∧ (us = [] → ls = [q] ∧ h' = [])
    ∧ (us ≠ [] → ∀ l, l ∈ ls → length h ≤ l).
Proof.
  intros Hq. unfold _build_queries.
  destruct (_build_queries_outer us [q] [d] h) as (ls & h' & Hrun & Hc & Hrest).
  { by constructor. }
  { apply NoDup_singleton. }
  exists ls, h'. split; [done|]. split; [|done].
  rewrite double_completions in Hc. cbn [flat_map] in Hc.
  by rewrite app_nil_r in Hc.
Qed.

(** Writing into one object leaves every other object as it was. *)
Lemma setitem_frame l l' key val (h : heap) :
  l ≠ l' → (setitem l key val h).2 !! l' = h !! l'.
Proof.
  intros Hne. unfold setitem. destruct (h !! l); [|done].
  cbn. by rewrite list_lookup_insert_ne.
Qed.

Section Classification.
Context {R : Type} `{Number R}.
Implicit Types (self : BBN R) (cn : BBN_Node R) (d c : dict) (h : heap).

(** ** [get_prob] *)

Lemma get_prob_parents cn val key :
  parents cn ≠ [] →
  get_prob cn val key =
  match p_table cn !! key with
  | Some prob => Ok (if bool_decide (val = "t") then prob else sub one prob)
  | None => Raise (KeyError key)
  end.
Proof.
  intros Hp. unfold get_prob, getitem.
  rewrite (bool_decide_eq_false_2 _ Hp). cbn [andb].
  by destruct (p_table cn !! key).
Qed.

Lemma get_prob_no_parents cn val key :
  parents cn = [] → key ≠ EmptyString →
  get_prob cn val key = Raise (BadQueryError (NodeHasNoParents (label cn))).
Proof.
  intros Hp Hk. unfold get_prob.
  by rewrite (bool_decide_eq_true_2 _ Hp), (bool_decide_eq_false_2 _ Hk).
Qed.

(** ** [_query] *)

Lemma has_parents_true cn : has_parents cn = true ↔ parents cn ≠ [].
Proof.
  unfold has_parents. rewrite negb_true_iff, bool_decide_eq_false. done.
Qed.

Lemma _query_step_factor q probs item :
  parents item.2 ≠ [] →
  _query_step q probs item = (p ← factor q item; Ok (probs ++ [p])).
Proof.
  intros Hp. destruct item as [node cn]. unfold _query_step, factor.
  rewrite (proj2 (has_parents_true cn) Hp). cbn [fst snd].
  destruct (mapR (getitem q) (parents cn)); [|done]. cbn.
  destruct (getitem q node); [|done]. cbn.
  by destruct (get_prob cn _ _).
Qed.

Lemma _query_step_skip q probs item :
  parents item.2 = [] → _query_step q probs item = Ok probs.
Proof.
  intros Hp. destruct item as [node cn]. unfold _query_step, has_parents.
  cbn in Hp. by rewrite (bool_decide_eq_true_2 _ Hp).
Qed.

Lemma _query_loop q items probs :
  foldR (_query_step q) items probs
  = (ps ← mapR (factor q) (filter (λ item, parents item.2 ≠ []) items);
     Ok (probs ++ ps)).
Proof.
  revert probs. induction items as [|item items IH]; intros probs.
  - cbn. by rewrite app_nil_r.
  - cbn [foldR]. destruct (decide (parents item.2 = [])) as [Hp|Hp].
    + rewrite (_query_step_skip _ _ _ Hp). rewrite filter_cons_False by tauto.
      apply IH.
    + rewrite (_query_step_factor _ _ _ Hp). rewrite filter_cons_True by done.
      cbn [mapR]. destruct (factor q item) as [p|e]; [|done]. cbn.
      rewrite IH.
      destruct (mapR (factor q) _) as [ps|e]; [|done]. cbn.
      by rewrite <- app_assoc.
Qed.

Lemma _query_factors self q :
  _query self q = (ps ← mapR (factor q) (scored_nodes self); reduce mul ps).
Proof.
  unfold _query, scored_nodes. rewrite _query_loop.
  by destruct (mapR (factor q) _).
Qed.

(** The only exceptions of [_query] are a failed lookup and the reduction of
    an empty list of factors; [get_prob] is only asked about nodes with
    parents there, so its own [BadQueryError] cannot occur. *)
Lemma factor_exn q item e :
  parents item.2 ≠ [] → factor q item = Raise e → ∃ key, e = KeyError key.
Proof.
  intros Hp. unfold factor.
  destruct (mapR (getitem q) (parents item.2)) as [vals|e'] eqn:Hv; cbn.
  - destruct (getitem q item.1) as [val|e'] eqn:Hval; cbn.
    + rewrite get_prob_parents by done.
      destruct (p_table item.2 !! join vals); [done|]. intros [= <-]. eauto.
    + intros [= ->]. apply getitem_exn in Hval. eauto.
  - intros [= ->]. apply mapR_Raise in Hv as (x & _ & Hx%getitem_exn). eauto.
Qed.

Lemma _query_exn self q e :
  _query self q = Raise e → e = TypeError ∨ ∃ key, e = KeyError key.
Proof.
  rewrite _query_factors. unfold scored_nodes.
  destruct (mapR (factor q) _) as [ps|e'] eqn:Hps; cbn.
  - destruct ps; cbn; [intros [= <-]; auto|done].
  - intros [= ->]. right.
    apply mapR_Raise in Hps as (item & [Hp _]%list_elem_of_filter & Hitem).
    by eapply factor_exn.
Qed.

(** ** The two classification paths *)

Lemma _classify_all_evidence_eq self q h d :
  h !! q = Some d →
  _classify_all_evidence self q h =
  match score self "t" d with
  | Raise e => (Raise e, <[q := <[target self := "t"]> d]> h)
  | Ok yes =>
      match score self "f" d with
      | Raise e => (Raise e, <[q := <[target self := "f"]> d]> h)
      | Ok no => (Ok (gtb yes no), <[q := <[target self := "f"]> d]> h)
      end
  end.
Proof.
  intros Hq. pose proof (lookup_lt_Some _ _ _ Hq) as Hlt.
  unfold _classify_all_evidence, score.
  rewrite M_bind_eq, (setitem_ok _ _ _ _ _ Hq).
  rewrite M_bind_eq, (load_ok _ _ (<[target self := "t"]> d))
    by by apply list_lookup_insert_eq.
  rewrite M_bind_eq. unfold lift at 1.
  destruct (_query self (<[target self := "t"]> d)) as [yes|e]; [|done].
  rewrite M_bind_eq, (setitem_ok _ _ _ _ (<[target self := "t"]> d))
    by by apply list_lookup_insert_eq.
  rewrite list_insert_insert_eq, insert_insert_eq.
  rewrite M_bind_eq, (load_ok _ _ (<[target self := "f"]> d))
    by by apply list_lookup_insert_eq.
  rewrite M_bind_eq. unfold lift at 1.
  by destruct (_query self (<[target self := "f"]> d)).
Qed.

Lemma _classify_partial_step_eq self ts fs l h c :
  h !! l = Some c →
  ∃ v, _classify_partial_step self (ts, fs) l h =
       (match score2 self c with
        | Ok (pt, pf) => Ok (ts ++ [pt], fs ++ [pf])
        | Raise e => Raise e
        end, <[l := <[target self := v]> c]> h).
Proof.
  intros Hq. pose proof (lookup_lt_Some _ _ _ Hq) as Hlt.
  unfold _classify_partial_step, score2, score.
  rewrite M_bind_eq, (setitem_ok _ _ _ _ _ Hq).
  rewrite M_bind_eq, (load_ok _ _ (<[target self := "t"]> c))
    by by apply list_lookup_insert_eq.
  rewrite M_bind_eq. unfold lift at 1.
  destruct (_query self (<[target self := "t"]> c)) as [pt|e]; [|by exists "t"].
  rewrite M_bind_eq, (setitem_ok _ _ _ _ (<[target self := "t"]> c))
    by by apply list_lookup_insert_eq.
  rewrite list_insert_insert_eq, insert_insert_eq.
  rewrite M_bind_eq, (load_ok _ _ (<[target self := "f"]> c))
    by by apply list_lookup_insert_eq.
  rewrite M_bind_eq. unfold lift at 1. exists "f". cbn.
  by destruct (_query self (<[target self := "f"]> c)).
Qed.

(** The scoring loop over distinct references: the outcome only depends on
    the dictionaries they hold, and no other object is written. *)
Lemma _classify_partial_loop self ls cs h ts fs :
  cells h ls cs → NoDup ls →
  ∃ h', foldM (_classify_partial_step self) ls (ts, fs) h =
        (match mapR (score2 self) cs with
         | Ok pairs => Ok (ts ++ pairs.*1, fs ++ pairs.*2)
         | Raise e => Raise e
         end, h')
        ∧ ∀ l, l ∉ ls → h' !! l = h !! l.
Proof.
  revert cs h ts fs. induction ls as [|l ls IH]; intros cs h ts fs Hc Hnd.
  - apply Forall2_nil_inv_l in Hc as ->. exists h. cbn.
    by rewrite !app_nil_r.
  - apply Forall2_cons_inv_l in Hc as (c & cs' & Hl & Hc & ->).
    apply NoDup_cons in Hnd as [Hnotin Hnd].
    destruct (_classify_partial_step_eq self ts fs l h c Hl) as [v Hstep].
    cbn [foldM mapR]. rewrite M_bind_eq, Hstep.
    destruct (score2 self c) as [[pt pf]|e]; cbn.
    + destruct (IH cs' (<[l := <[target self := v]> c]> h) (ts ++ [pt]) (fs ++ [pf]))
        as (h' & Hrun & Hframe); [|done|].
      { eapply cells_frame; [|exact Hc]. intros l' Hl'.
        rewrite list_lookup_insert_ne; [done|]. by intros ->. }
      exists h'. rewrite Hrun. split.
      * destruct (mapR (score2 self) cs') as [pairs|e]; cbn; [|done].
        by rewrite <- !app_assoc.
      * intros l' [Hne Hl']%not_elem_of_cons.
        rewrite Hframe by done. by rewrite list_lookup_insert_ne.
    + eexists. split; [done|]. intros l' Hl'.
      apply not_elem_of_cons in Hl' as [Hne _]. by rewrite list_lookup_insert_ne.
Qed.
Lemma _classify_partial_evidence_eq self q us h d :
  h !! q = Some d →
  ∃ h', _classify_partial_evidence self q us h =
        (match mapR (score2 self) (completions d us) with
         | Ok pairs => Ok (gtb (sum pairs.*1) (sum pairs.*2))
         | Raise e => Raise e
         end, h')
        ∧ (us ≠ [] → h' !! q = Some d).
Proof.
  intros Hq. unfold _classify_partial_evidence.
  destruct (_build_queries_spec q us h d Hq)
    as (ls & h1 & Hrun & Hc & Hnd & _ & Hfresh).
  destruct (_classify_partial_loop self ls _ (h ++ h1) [] [] Hc Hnd)
    as (h' & Hloop & Hframe).
  exists h'. rewrite M_bind_eq, Hrun, M_bind_eq, Hloop. split.
  - destruct (mapR (score2 self) (completions d us)); reflexivity.
  - intros Hus. pose proof (lookup_lt_Some _ _ _ Hq) as Hlt.
    rewrite Hframe.
    + by rewrite lookup_app_l.
    + intros Hin%(Hfresh Hus). lia.
Qed.

(** ** [classify] *)

Lemma in_graph_all self d :
  forallb (in_graph self) (map fst (map_to_list d)) = true
  ↔ ∀ var, is_Some (d !! var) → var ∈ map fst (graph self).
Proof.
  rewrite forallb_forall. unfold in_graph. split.
  - intros Hall var [v Hv]. eapply bool_decide_eq_true_1, Hall.
    apply list_elem_of_In, list_elem_of_fmap. exists (var, v).
    split; [done|]. by apply elem_of_map_to_list.
  - intros Hall var Hin. apply bool_decide_eq_true_2, Hall.
    apply list_elem_of_In, list_elem_of_fmap in Hin as ([var' v] & -> & Hin).
    apply elem_of_map_to_list in Hin. by exists v.
Qed.

Lemma in_graph_some self d :
  forallb (in_graph self) (map fst (map_to_list d)) = false
  ↔ ∃ var, is_Some (d !! var) ∧ var ∉ map fst (graph self).
Proof.
  split.
  - intros Hf.
    assert (∃ var, var ∈ map fst (map_to_list d) ∧ in_graph self var = false)
      as (var & Hin & Hvar).
    { induction (map fst (map_to_list d)) as [|x l IH]; [done|].
      cbn in Hf. apply andb_false_iff in Hf as [Hx|Hl].
      - exists x. split; [apply list_elem_of_here|done].
      - destruct (IH Hl) as (var & Hin & Hvar). exists var.
        split; [by apply list_elem_of_further|done]. }
    exists var. split.
    + apply list_elem_of_fmap in Hin as ([var' v] & -> & Hin).
      apply elem_of_map_to_list in Hin. by exists v.
    + unfold in_graph in Hvar. by apply bool_decide_eq_false_1 in Hvar.
  - intros (var & Hin & Hnot). apply not_true_iff_false.
    rewrite in_graph_all. auto.
Qed.

Lemma classify_unfold self q h d :
  h !! q = Some d →
  classify self q h =
  if bool_decide (d = ∅) then (Raise (BadQueryError QueryIsEmpty), h)
  else if negb (forallb (in_graph self) (map fst (map_to_list d)))
  then (Raise (BadQueryError VariableNotInGraph), h)
  else if bool_decide (_get_unknowns self d = [])
  then _classify_all_evidence self q h
  else _classify_partial_evidence self q (_get_unknowns self d) h.
Proof.
  intros Hq. unfold classify. rewrite M_bind_eq, (load_ok _ _ _ Hq).
  by repeat case_match.
Qed.

Lemma classify_valid self q h d :
  h !! q = Some d → valid_query self d →
  classify self q h =
  if bool_decide (_get_unknowns self d = [])
  then _classify_all_evidence self q h
  else _classify_partial_evidence self q (_get_unknowns self d) h.
Proof.
  intros Hq [Hne Hall]. rewrite (classify_unfold _ _ _ _ Hq).
  rewrite (bool_decide_eq_false_2 _ Hne).
  by rewrite (proj2 (in_graph_all self d) Hall).
Qed.

(** The outcome of [classify] on a valid query, in terms of the scores of the
    completions: the dictionaries scored are the completions of the query
    over the unknowns (the query itself when there is none), each with the
    target bound to 't' and then to 'f', in this order. *)
Lemma classify_scores self q h d :
  h !! q = Some d → valid_query self d →
  (classify self q h).1 =
  match mapR (score2 self) (completions d (_get_unknowns self d)) with
  | Ok pairs => Ok (gtb (sum pairs.*1) (sum pairs.*2))
  | Raise e => Raise e
  end
  ∨ (_get_unknowns self d = [] ∧
     (classify self q h).1 =
     match score2 self d with
     | Ok (yes, no) => Ok (gtb yes no)
     | Raise e => Raise e
     end).
Proof.
  intros Hq Hv. rewrite (classify_valid _ _ _ _ Hq Hv). case_bool_decide as Hus.
  - right. split; [done|]. rewrite (_classify_all_evidence_eq _ _ _ _ Hq).
    unfold score2. destruct (score self "t" d); [|done]. cbn.
    by destruct (score self "f" d).
  - left. destruct (_classify_partial_evidence_eq self q (_get_unknowns self d) h d Hq)
      as (h' & -> & _). done.
Qed.

Lemma score2_Ok self c pt pf :
  score2 self c = Ok (pt, pf) ↔ score self "t" c = Ok pt ∧ score self "f" c = Ok pf.
Proof.
  unfold score2. destruct (score self "t" c) as [x|e]; cbn; [|intuition congruence].
  destruct (score self "f" c) as [y|e]; cbn; intuition congruence.
Qed.

Lemma score2_Raise self c e :
  score2 self c = Raise e → score self "t" c = Raise e ∨ score self "f" c = Raise e.
Proof.
  unfold score2. destruct (score self "t" c) as [x|e']; cbn; [|intuition congruence].
  destruct (score self "f" c) as [y|e']; cbn; intuition congruence.
Qed.


Lemma completions_nil d : completions d [] = [d].
Proof. done. Qed.

Lemma completions_nonempty d us : completions d us ≠ [].
Proof.
  intros Hnil. pose proof (completions_length d us) as Hlen.
  rewrite Hnil in Hlen. cbn in Hlen.
  pose proof (Nat.pow_nonzero 2 (length us)). lia.
Qed.

(** Whether [classify] returns or raises on a valid query, on both paths. *)
Lemma classify_outcome self q h d :
  h !! q = Some d → valid_query self d →
  match mapR (score2 self) (completions d (_get_unknowns self d)) with
  | Raise e => (classify self q h).1 = Raise e
  | Ok pairs => ∃ b, (classify self q h).1 = Ok b
  end.
Proof.
  intros Hq Hv. destruct (classify_scores self q h d Hq Hv) as [->|[Hus ->]].
  - destruct (mapR _ _); eauto.
  - rewrite Hus, completions_nil. cbn [mapR].
    destruct (score2 self d) as [[yes no]|e]; cbn; eauto.
Qed.

Lemma classify_valid_exn self q h d e :
  h !! q = Some d → valid_query self d →
  (classify self q h).1 = Raise e →
  ∃ c v, c ∈ completions d (_get_unknowns self d) ∧ (v = "t" ∨ v = "f")
         ∧ score self v c = Raise e.
Proof.
  intros Hq Hv Hr. pose proof (classify_outcome self q h d Hq Hv) as Hout.
  destruct (mapR _ _) as [pairs|e'] eqn:Hm.
  - destruct Hout as [b Hb]. congruence.
  - assert (e' = e) as -> by congruence.
    apply mapR_Raise in Hm as (c & Hin & [Hc|Hc]%score2_Raise); eauto 6.
Qed.

Lemma _query_TypeError self q :
  _query self q = Raise TypeError → scored_nodes self = [].
Proof.
  rewrite _query_factors.
  destruct (mapR (factor q) (scored_nodes self)) as [ps|e] eqn:Hm; cbn.
  - destruct ps; [|done]. intros _. apply mapR_length in Hm.
    by destruct (scored_nodes self).
  - intros [= ->]. apply mapR_Raise in Hm as (item & [Hp _]%list_elem_of_filter & Hi).
    by destruct (factor_exn _ _ _ Hp Hi).
Qed.

Lemma _query_no_scored_nodes self q :
  scored_nodes self = [] → _query self q = Raise TypeError.
Proof. intros Hs. by rewrite _query_factors, Hs. Qed.

Lemma factor_fully_bound self q item :
  fully_bound self q → item ∈ graph self →
  factor q item
  = get_prob item.2 (q !!! item.1) (join ((λ p, q !!! p) <$> parents item.2)).
Proof.
  intros Hfb Hin. unfold fully_bound in Hfb.
  rewrite Forall_forall in Hfb. destruct (Hfb item Hin) as [[val Hval] Hps].
  unfold factor.
  assert (mapR (getitem q) (parents item.2) = Ok ((λ p, q !!! p) <$> parents item.2))
    as ->.
  { apply mapR_Ok. induction Hps as [|p ps [v Hp] _ IH]; constructor; [|done].
    unfold getitem. by rewrite (lookup_total_correct _ _ _ Hp), Hp. }
  cbn. unfold getitem. by rewrite (lookup_total_correct _ _ _ Hval), Hval.
Qed.

Lemma mapR_ext_in {A B : Type} (f g : A → result B) l :
  (∀ x, x ∈ l → f x = g x) → mapR f l = mapR g l.
Proof.
  induction l as [|x l IH]; intros Hfg; cbn [mapR]; [done|].
  rewrite Hfg by apply list_elem_of_here.
  rewrite IH; [done|]. intros y Hy. apply Hfg. by apply list_elem_of_further.
Qed.

(** ** Properties of the classifier *)

(** C2. For a fully-bound assignment, the score of [_query] is the product,
    over exactly the nodes of the graph whose parent list is non-empty and in
    the order of the graph, of [get_prob] at the node's value and at the
    concatenated values of its parents; the nodes without parents give no
    factor. The product is the left-to-right one of [reduce]. *)
Theorem _query_product self (q : dict) :
  fully_bound self q →
  _query self q
  = (ps ← mapR (λ item, get_prob item.2 (q !!! item.1)
                          (join ((λ p, q !!! p) <$> parents item.2)))
               (scored_nodes self);
     reduce mul ps)
  ∧ (∀ item, item ∈ scored_nodes self ↔ item ∈ graph self ∧ parents item.2 ≠ [])
  ∧ (∀ p ps,
       mapR (λ item, get_prob item.2 (q !!! item.1)
                       (join ((λ p, q !!! p) <$> parents item.2)))
            (scored_nodes self) = Ok (p :: ps) →
       _query self q = Ok (fold_left mul ps p)).
Proof.
  intros Hfb.
  assert (mapR (factor q) (scored_nodes self)
          = mapR (λ item, get_prob item.2 (q !!! item.1)
                            (join ((λ p, q !!! p) <$> parents item.2)))
                 (scored_nodes self)) as Heq.
  { apply mapR_ext_in. intros item [_ Hin]%list_elem_of_filter.
    by apply (factor_fully_bound self). }
  split_and!.
  - by rewrite _query_factors, Heq.
  - intros item. unfold scored_nodes. rewrite list_elem_of_filter. tauto.
  - intros p ps Hps. by rewrite _query_factors, Heq, Hps.
Qed.


(** C6 (amended). [classify] raises the empty-query error exactly when the
    query has no entry and, on a non-empty query, the unknown-variable error
    exactly when some key of the query is not a label of the graph; in both
    cases nothing has been scored or enumerated: the object store is as it
    was. Parent labels are not checked. *)
Theorem classify_validation self (q : loc) h d :
  h !! q = Some d →
  ((classify self q h).1 = Raise (BadQueryError QueryIsEmpty) ↔ d = ∅)
  ∧ (d ≠ ∅ →
     ((classify self q h).1 = Raise (BadQueryError VariableNotInGraph)
      ↔ ∃ var, is_Some (d !! var) ∧ var ∉ map fst (graph self)))
  ∧ (d = ∅ ∨ (∃ var, is_Some (d !! var) ∧ var ∉ map fst (graph self)) →
     (classify self q h).2 = h).
Proof.
  intros Hq.
  assert (∀ m, valid_query self d → (classify self q h).1 ≠ Raise (BadQueryError m))
    as Hscoring.
  { intros m Hv Hr.
    destruct (classify_valid_exn self q h d _ Hq Hv Hr) as (c & v & _ & _ & Hs).
    by destruct (_query_exn _ _ _ Hs) as [?|[? ?]]. }
  rewrite <- (in_graph_some self d).
  destruct (decide (d = ∅)) as [Hd|Hd].
  { rewrite (classify_unfold _ _ _ _ Hq), (bool_decide_eq_true_2 _ Hd). cbn.
    split_and!; [done|done|done]. }
  destruct (forallb (in_graph self) (map fst (map_to_list d))) eqn:Hall.
  - assert (valid_query self d) as Hv by (split; [done|by apply in_graph_all]).
    split_and!.
    + split; [|done]. intros Hr. by destruct (Hscoring _ Hv Hr).
    + intros _. split; [|done]. intros Hr. by destruct (Hscoring _ Hv Hr).
    + by intros [?|?].
  - rewrite (classify_unfold _ _ _ _ Hq), (bool_decide_eq_false_2 _ Hd), Hall.
    cbn. split_and!; [done|done|done].
Qed.
(** C7. When the table of a node with parents has no entry for the key formed
    from the parent values of an assignment that [classify] scores,
    [get_prob] raises the lookup error for that key, and [classify] raises a
    lookup error as well, the very one that scoring one of its assignments
    raised: no Boolean is returned in its place. *)
Theorem missing_combination_raises self (q : loc) h d c v item vals :
  h !! q = Some d → valid_query self d →
  c ∈ completions d (_get_unknowns self d) → v = "t" ∨ v = "f" →
  item ∈ scored_nodes self →
  mapR (getitem (<[target self := v]> c)) (parents item.2) = Ok vals →
  p_table item.2 !! join vals = None →
  (∀ val, get_prob item.2 val (join vals) = Raise (KeyError (join vals)))
  ∧ ∃ key, (classify self q h).1 = Raise (KeyError key)
         ∧ ∃ c' v', c' ∈ completions d (_get_unknowns self d)
                  ∧ (v' = "t" ∨ v' = "f")
                  ∧ score self v' c' = Raise (KeyError key).
Proof.
  intros Hq Hv Hc Hsym Hitem Hvals Hnone.
  assert (parents item.2 ≠ []) as Hp.
  { by apply list_elem_of_filter in Hitem as [? _]. }
  assert (∀ val, get_prob item.2 val (join vals) = Raise (KeyError (join vals)))
    as Hget.
  { intros val. by rewrite get_prob_parents, Hnone. }
  split; [done|].
  assert (∃ e, factor (<[target self := v]> c) item = Raise e) as [e Hf].
  { unfold factor. rewrite Hvals. cbn.
    destruct (getitem _ item.1); cbn; [rewrite Hget|]; eauto. }
  assert (∃ e, score self v c = Raise e) as [e1 Hs].
  { unfold score. rewrite _query_factors.
    destruct (mapR (factor _) (scored_nodes self)) as [ps|e'] eqn:Hm; cbn; [|eauto].
    apply mapR_Ok in Hm. apply list_elem_of_lookup in Hitem as [i Hi].
    destruct (Forall2_lookup_l _ _ _ _ _ Hm Hi) as (p & _ & Hok). congruence. }
  assert (∃ e, score2 self c = Raise e) as [e2 Hs2].
  { unfold score2. destruct Hsym as [-> | ->].
    - rewrite Hs. cbn. eauto.
    - destruct (score self "t" c); cbn; [rewrite Hs|]; cbn; eauto. }
  assert (∃ e, mapR (score2 self) (completions d (_get_unknowns self d)) = Raise e)
    as [e3 Hm].
  { destruct (mapR (score2 self) _) as [pairs|e'] eqn:Hm; [|eauto].
    apply mapR_Ok in Hm. apply list_elem_of_lookup in Hc as [i Hi].
    destruct (Forall2_lookup_l _ _ _ _ _ Hm Hi) as (p & _ & Hok). congruence. }
  pose proof (classify_outcome self q h d Hq Hv) as Hout. rewrite Hm in Hout.
  destruct (classify_valid_exn self q h d e3 Hq Hv Hout) as (c' & v' & Hc' & Hv' & Hs').
  destruct (_query_exn _ _ _ Hs') as [->|[key ->]].
  - apply _query_TypeError in Hs'. rewrite Hs' in Hitem. by apply elem_of_nil in Hitem.
  - exists key. split; [done|]. by exists c', v'.
Qed.

(** C8 (amended). A node without parents asked with a non-empty parent
    assignment raises [BadQueryError]; a node with parents asked with the
    empty parent assignment is looked up under the empty key like under any
    other: the answer is the entry of the table when there is one, and the
    lookup error otherwise. *)
Theorem get_prob_arity cn val key :
  (parents cn = [] → key ≠ EmptyString →
   get_prob cn val key = Raise (BadQueryError (NodeHasNoParents (label cn))))
  ∧ (parents cn ≠ [] →
     get_prob cn val EmptyString =
     match p_table cn !! EmptyString with
     | Some prob => Ok (if bool_decide (val = "t") then prob else sub one prob)
     | None => Raise (KeyError EmptyString)
     end).
Proof.
  split; [apply get_prob_no_parents|apply get_prob_parents].
Qed.

(** C9. Without unknowns, [classify] writes the target into the dictionary
    the caller passed: when it returns, that dictionary is the caller's query
    with the target bound to 'f'. With unknowns, the caller's dictionary is
    as it was, whatever the outcome. *)
Theorem classify_caller_query self (q : loc) h d :
  h !! q = Some d → valid_query self d →
  (_get_unknowns self d = [] →
   ∀ yes no, score self "t" d = Ok yes → score self "f" d = Ok no →
     classify self q h = (Ok (gtb yes no), <[q := <[target self := "f"]> d]> h)
     ∧ (classify self q h).2 !! q = Some (<[target self := "f"]> d)
     ∧ (<[target self := "f"]> d) !! target self = Some "f")
  ∧ (_get_unknowns self d = [] →
     ∀ b h', classify self q h = (Ok b, h') →
       h' !! q = Some (<[target self := "f"]> d))
  ∧ (_get_unknowns self d ≠ [] → (classify self q h).2 !! q = Some d).
Proof.
  intros Hq Hv. pose proof (lookup_lt_Some _ _ _ Hq) as Hlt.
  rewrite (classify_valid _ _ _ _ Hq Hv). split_and!.
  - intros Hus yes no Hyes Hno. rewrite (bool_decide_eq_true_2 _ Hus).
    rewrite (_classify_all_evidence_eq _ _ _ _ Hq), Hyes, Hno. cbn.
    split_and!; [done|by apply list_lookup_insert_eq|apply lookup_insert_eq].
  - intros Hus b h'. rewrite (bool_decide_eq_true_2 _ Hus).
    rewrite (_classify_all_evidence_eq _ _ _ _ Hq).
    destruct (score self "t" d); [|done]. destruct (score self "f" d); [|done].
    intros [= _ <-]. by apply list_lookup_insert_eq.
  - intros Hus. rewrite (bool_decide_eq_false_2 _ Hus).
    destruct (_classify_partial_evidence_eq self q (_get_unknowns self d) h d Hq)
      as (h' & -> & Hh'). by apply Hh'.
Qed.

(** C10. In a network where no node has parents, every call of [classify]
    that passes the two checks raises the error of reducing an empty list of
    factors: it never returns a Boolean. *)
Theorem classify_without_parents self (q : loc) h d :
  (∀ item, item ∈ graph self → parents item.2 = []) →
  h !! q = Some d → valid_query self d →
  (classify self q h).1 = Raise TypeError
  ∧ ∀ a, _query self a = Raise TypeError.
Proof.
  intros Hroots Hq Hv.
  assert (scored_nodes self = []) as Hs.
  { unfold scored_nodes. revert Hroots. generalize (graph self).
    intros g. induction g as [|item g IH]; intros Hroots; [done|].
    rewrite filter_cons_False.
    - apply IH. intros item' Hin. apply Hroots. by apply list_elem_of_further.
    - intros Hp. apply Hp, Hroots, list_elem_of_here. }
  assert (∀ a, _query self a = Raise TypeError) as Hquery.
  { intros a. by apply _query_no_scored_nodes. }
  split; [|done].
  pose proof (classify_outcome self q h d Hq Hv) as Hout.
  pose proof (completions_nonempty d (_get_unknowns self d)) as Hne.
  destruct (completions d (_get_unknowns self d)) as [|c cs]; [done|].
  cbn [mapR] in Hout.
  assert (score2 self c = Raise TypeError) as Hc.
  { unfold score2, score. rewrite !Hquery. reflexivity. }
  by rewrite Hc in Hout.
Qed.
End Classification.

(** ** The enumeration *)

(** C3. From a base query [d] and a list of [k] unknowns, [_build_queries]
    returns [2^k] references; the dictionaries behind them are, in order, the
    base query extended by each truth assignment over the unknowns (all of
    them, and pairwise different when the unknowns are); the references are
    pairwise distinct, so writing through one leaves the others as they
    were; with no unknown the result is the one reference passed in. *)
Theorem _build_queries_completions (q : loc) (unknowns : list string) (h : heap) (d : dict) :
  h !! q = Some d →
  ∃ queries h',
    _build_queries q unknowns h = (Ok queries, h')
    ∧ length queries = 2 ^ length unknowns
    ∧ cells h' queries (completions d unknowns)
    ∧ (∀ bs, length bs = length unknowns →
         extend d unknowns bs ∈ completions d unknowns)
    ∧ (NoDup unknowns → NoDup (completions d unknowns))
    ∧ NoDup queries
    ∧ (∀ i j l l' key val,
         i ≠ j → queries !! i = Some l → queries !! j = Some l' →
         (setitem l key val h').2 !! l' = h' !! l')
    ∧ (unknowns = [] → queries = [q] ∧ h' = h).
Proof.
  intros Hq.
  destruct (_build_queries_spec q unknowns h d Hq)
    as (ls & h1 & Hrun & Hc & Hnd & Hnil & _).
  exists ls, (h ++ h1). split_and!.
  - done.
  - by rewrite (cells_length _ _ _ Hc), completions_length.
  - done.
  - intros bs Hbs. unfold completions. apply list_elem_of_fmap.
    exists bs. split; [done|]. rewrite <- Hbs. apply assignments_complete.
  - apply completions_NoDup.
  - done.
  - intros i j l l' key val Hij Hi Hj. apply setitem_frame.
    intros ->. apply Hij. by eapply NoDup_lookup.
  - intros Hus. destruct (Hnil Hus) as [-> ->]. by rewrite app_nil_r.
Qed.

(** ** The graph built by the constructor *)

Lemma dict_set_keys {V : Type} (g : list (string * V)) key v :
  map fst (dict_set g key v)
  = if bool_decide (key ∈ map fst g) then map fst g else map fst g ++ [key].
Proof.
  induction g as [|[k w] g IH]; cbn [dict_set map fst]; [done|].
  destruct (decide (k = key)) as [->|Hk].
  - rewrite (bool_decide_eq_true_2 (key = key)) by done.
    by rewrite bool_decide_eq_true_2 by apply list_elem_of_here.
  - rewrite (bool_decide_eq_false_2 (k = key)) by done.
    cbn [map fst]. rewrite IH. destruct (decide (key ∈ map fst g)) as [Hin|Hin].
    + rewrite (bool_decide_eq_true_2 _ Hin).
      rewrite bool_decide_eq_true_2; [done|]. by apply list_elem_of_further.
    + rewrite (bool_decide_eq_false_2 _ Hin).
      rewrite bool_decide_eq_false_2; [done|].
      intros [?|?]%elem_of_cons; congruence.
Qed.

Lemma BBN_init_keys_NoDup {R : Type} (nodes : list (BBN_Node R)) tgt vb :
  NoDup (map fst (graph (BBN_init nodes tgt vb))).
Proof.
  cbn [graph BBN_init].
  assert (∀ g : list (string * BBN_Node R), NoDup (map fst g) →
            NoDup (map fst (fold_left (λ g node, dict_set g (label node) node) nodes g)))
    as Hgen.
  { induction nodes as [|node nodes IH]; intros g Hg; [done|].
    cbn [fold_left]. apply IH. rewrite dict_set_keys. case_bool_decide as Hin; [done|].
    apply NoDup_app. split_and!; [done| |apply NoDup_singleton].
    intros x Hx ->%list_elem_of_singleton. done. }
  apply Hgen. constructor.
Qed.

Lemma _get_unknowns_NoDup {R : Type} (self : BBN R) d :
  NoDup (map fst (graph self)) → NoDup (_get_unknowns self d).
Proof. intros Hnd. unfold _get_unknowns. by apply NoDup_filter. Qed.

(** For a network built by the constructor the unknowns are pairwise
    different, hence so are the completions that [classify] sums over. *)
Lemma completions_init_NoDup {R : Type} (nodes : list (BBN_Node R)) tgt vb d :
  NoDup (completions d (_get_unknowns (BBN_init nodes tgt vb) d)).
Proof.
  apply completions_NoDup, _get_unknowns_NoDup, BBN_init_keys_NoDup.
Qed.

(** ** Exact arithmetic *)

Lemma Q_gtb_spec (x y : Q) : gtb x y = true ↔ (y < x)%Q.
Proof.
  cbn. rewrite Qlt_alt. destruct (y ?= x)%Q; split; congruence.
Qed.


Lemma Q_gtb_tie (x y : Q) : (x == y)%Q → gtb x y = false.
Proof.
  intros Heq. apply not_true_iff_false. rewrite Q_gtb_spec, Heq. apply Qlt_irrefl.
Qed.

(** C5. For a node with parents and a key of its table, [get_prob] returns
    the stored probability for the value 't' and one minus it for the value
    'f'; the two answers add up to one. *)
Theorem get_prob_complement (cn : BBN_Node Q) (key : string) (p : Q) :
  parents cn ≠ [] → p_table cn !! key = Some p →
  get_prob cn "t" key = Ok p
  ∧ get_prob cn "f" key = Ok (1 - p)%Q
  ∧ ∀ pt pf, get_prob cn "t" key = Ok pt → get_prob cn "f" key = Ok pf →
             (pt + pf == 1)%Q.
Proof.
  intros Hp Hkey. rewrite !get_prob_parents, Hkey by done. cbn.
  split_and!; [done..|]. intros pt pf [= <-] [= <-]. ring.
Qed.

(** ** The network of the script *)

(** With the tables of the script read as exact rationals: the query
    [{e: f, d: t, cp: t, bp: t}] has no unknown; its score with the target
    true is [0.55 * 0.8 * 0.85 = 0.374], its score with the target false is
    [0.45 * 0.01 * 0.2 = 0.0009], and [classify] returns true. *)
Theorem main_full_evidence :
  _get_unknowns (main.bbn Qmake) main.query = []
  ∧ ∃ yes no,
      score (main.bbn Qmake) "t" main.query = Ok yes
      ∧ (yes == (55 # 100) * (8 # 10) * (85 # 100))%Q ∧ (yes == 374 # 1000)%Q
      ∧ score (main.bbn Qmake) "f" main.query = Ok no
      ∧ (no == (45 # 100) * (1 # 100) * (2 # 10))%Q ∧ (no == 9 # 10000)%Q
      ∧ (classify (main.bbn Qmake) 0 [main.query]).1 = Ok true.
Proof.
  split; [by vm_compute|].
  eexists _, _. split_and!; [by vm_compute|done|done|by vm_compute|done..].
Qed.



(** With [d] unknown, the two completions are scored and summed. *)
Example main_partial_evidence :
  _get_unknowns (main.bbn Qmake) main.query_partial = ["d"]
  ∧ (classify (main.bbn Qmake) 0 [main.query_partial]).1 = Ok true.
Proof. split; by vm_compute. Qed.

(** In binary64 the score with the target true is the float next above the
    one denoted by [0.374], the score with the target false is the float
    denoted by [0.0009], and the answer is the same. *)
Example main_full_evidence_binary64 :
  score (main.bbn b64_lit) "t" main.query
  = Ok (S754_finite false 6737385042546263 (-54))
  ∧ b64_lit 374 1000 = S754_finite false 6737385042546262 (-54)
  ∧ score (main.bbn b64_lit) "f" main.query = Ok (b64_lit 9 10000)
  ∧ (classify (main.bbn b64_lit) 0 [main.query]).1 = Ok true
  ∧ (classify (main.bbn b64_lit) 0 [main.query_partial]).1 = Ok true.
Proof. split_and!; by vm_compute. Qed.

(** On the tables of the script the two answers of [get_prob] also add up to
    exactly one in binary64. *)
Example main_tables_binary64 :
  Forall (λ p, add p (sub one p) = one)
         [b64_lit 7 10; b64_lit 25 100; b64_lit 45 100; b64_lit 55 100;
          b64_lit 75 100; b64_lit 8 10; b64_lit 1 100; b64_lit 85 100;
          b64_lit 2 10].
Proof. repeat constructor. Qed.

(** ** The properties at concrete inputs *)

(** Refuting a decidable proposition by evaluating its decision procedure. *)
Ltac refute_by_computation :=
  match goal with
  | |- ¬ ?P => refine (bool_decide_eq_false_1 P _); vm_compute; reflexivity
  end.

Lemma valid_query_check {R : Type} (self : BBN R) (d : dict) :
  bool_decide (d = ∅) = false →
  forallb (in_graph self) (map fst (map_to_list d)) = true →
  valid_query self d.
Proof.
  intros Hd Hall. split; [exact (bool_decide_eq_false_1 _ Hd)|by apply in_graph_all].
Qed.

Lemma fully_bound_check {R : Type} (self : BBN R) (q : dict) :
  forallb (λ item, bool_decide (is_Some (q !! item.1))
                   && forallb (λ p, bool_decide (is_Some (q !! p))) (parents item.2))
          (graph self) = true →
  fully_bound self q.
Proof.
  rewrite forallb_forall. intros Hall. apply Forall_forall. intros item Hin.
  apply list_elem_of_In, Hall, andb_true_iff in Hin as [Hval Hps].
  split; [exact (bool_decide_eq_true_1 _ Hval)|].
  rewrite forallb_forall in Hps. apply Forall_forall. intros p Hp.
  apply list_elem_of_In, Hps in Hp. exact (bool_decide_eq_true_1 _ Hp).
Qed.


Lemma _query_product_witness :
  _query (main.bbn Qmake) (<["hd" := "t"]> main.query)
  = Ok (fold_left Qmult [8 # 10; 85 # 100] (55 # 100))%Q.
Proof.
  edestruct (_query_product (main.bbn Qmake) (<["hd" := "t"]> main.query))
    as (_ & _ & Hprod).
  - apply fully_bound_check. vm_compute. reflexivity.
  - apply (Hprod (55 # 100)%Q [8 # 10; 85 # 100]%Q). vm_compute. reflexivity.
Defined.

Lemma _build_queries_completions_witness :
  ∃ queries h',
    _build_queries 0 ["x"; "y"] [∅] = (Ok queries, h')
    ∧ length queries = 4
    ∧ cells h' queries
        [<["y" := "t"]> {[ "x" := "t" ]}; <["y" := "f"]> {[ "x" := "t" ]};
         <["y" := "t"]> {[ "x" := "f" ]}; <["y" := "f"]> {[ "x" := "f" ]}].
Proof.
  destruct (_build_queries_completions 0 ["x"; "y"] [∅] ∅)
    as (queries & h' & Hrun & Hlen & Hcells & _).
  - reflexivity.
  - exists queries, h'. split_and!; [exact Hrun|exact Hlen|exact Hcells].
Defined.

Lemma get_prob_complement_witness :
  get_prob (main.hd Qmake) "t" "ft" = Ok (55 # 100)%Q
  ∧ get_prob (main.hd Qmake) "f" "ft" = Ok (1 - (55 # 100))%Q.
Proof.
  destruct (get_prob_complement (main.hd Qmake) "ft" (55 # 100)%Q) as (Ht & Hf & _).
  - discriminate.
  - reflexivity.
  - split; [exact Ht|exact Hf].
Defined.

Lemma classify_validation_witness :
  (classify (main.bbn Qmake) 0 [∅]).1 = Raise (BadQueryError QueryIsEmpty)
  ∧ (classify (main.bbn Qmake) 0 [{[ "z" := "t" ]}]).1
    = Raise (BadQueryError VariableNotInGraph).
Proof.
  split.
  - destruct (classify_validation (main.bbn Qmake) 0 [∅] ∅) as ([_ Hempty] & _).
    + reflexivity.
    + apply Hempty. reflexivity.
  - destruct (classify_validation (main.bbn Qmake) 0 [{[ "z" := "t" ]}] {[ "z" := "t" ]})
      as (_ & Hunknown & _).
    + reflexivity.
    + apply Hunknown.
      * refute_by_computation.
      * exists "z". split; [by eexists|]. refute_by_computation.
Defined.

(** A parent label that is no label of the network passes the checks of
    [classify]: the call fails while scoring, with a lookup error, after the
    target has been written into the caller's dictionary. *)
Lemma parent_label_not_validated :
  map (λ item, (item.1, parents item.2)) (graph inputs.dangling)
  = [("b", []); ("a", ["zz"])]
  ∧ ("zz" ∉ map fst (graph inputs.dangling))
  ∧ (classify inputs.dangling 0 [{[ "b" := "t" ]}]).1 = Raise (KeyError "zz")
  ∧ (classify inputs.dangling 0 [{[ "b" := "t" ]}]).1
    ≠ Raise (BadQueryError VariableNotInGraph)
  ∧ (classify inputs.dangling 0 [{[ "b" := "t" ]}]).2
    = [<["a" := "t"]> {[ "b" := "t" ]}].
Proof.
  split_and!.
  - reflexivity.
  - refute_by_computation.
  - vm_compute. reflexivity.
  - vm_compute. discriminate.
  - vm_compute. reflexivity.
Qed.

Lemma missing_combination_raises_witness :
  get_prob inputs.incomplete_hd "t" "ft" = Raise (KeyError "ft")
  ∧ ∃ key, (classify inputs.incomplete 0 [main.query]).1 = Raise (KeyError key).
Proof.
  destruct (missing_combination_raises inputs.incomplete 0 [main.query] main.query
              main.query "t" ("hd", inputs.incomplete_hd) ["f"; "t"])
    as (Hget & key & Hraise & _).
  - reflexivity.
  - apply valid_query_check; vm_compute; reflexivity.
  - vm_compute. apply list_elem_of_here.
  - left. reflexivity.
  - vm_compute. apply list_elem_of_here.
  - vm_compute. reflexivity.
  - vm_compute. reflexivity.
  - split; [exact (Hget "t")|exists key; exact Hraise].
Defined.

(** A node with parents asked with the empty parent assignment: on the table
    of [hd] the failure is the lookup error and not [BadQueryError]; on a
    table that has an entry for the empty key there is no failure at all. *)
Lemma empty_assignment_answered :
  parents (main.hd Qmake) ≠ []
  ∧ get_prob (main.hd Qmake) "t" EmptyString = Raise (KeyError EmptyString)
  ∧ (∀ msg, get_prob (main.hd Qmake) "t" EmptyString ≠ Raise (BadQueryError msg))
  ∧ parents inputs.lone ≠ []
  ∧ get_prob inputs.lone "t" EmptyString = Ok (1 # 2)%Q
  ∧ ¬ (∀ (cn : BBN_Node Q) (val : string),
         parents cn ≠ [] → ∃ e, get_prob cn val EmptyString = Raise e).
Proof.
  split_and!; [done|by vm_compute|by vm_compute|done|by vm_compute|].
  intros Hall. by destruct (Hall inputs.lone "t") as [e He].
Qed.

Lemma get_prob_arity_witness :
  get_prob (main.e Qmake) "t" "t" = Raise (BadQueryError (NodeHasNoParents "e"))
  ∧ get_prob (main.hd Qmake) "t" EmptyString = Raise (KeyError EmptyString).
Proof.
  split.
  - apply (proj1 (get_prob_arity (main.e Qmake) "t" "t")).
    + reflexivity.
    + discriminate.
  - apply (proj2 (get_prob_arity (main.hd Qmake) "t" "t")). discriminate.
Defined.

Lemma classify_caller_query_witness :
  classify (main.bbn Qmake) 0 [main.query]
  = (Ok true, [<["hd" := "f"]> main.query])
  ∧ (classify (main.bbn Qmake) 0 [main.query_partial]).2 !! 0%nat
    = Some main.query_partial.
Proof.
  split.
  - destruct (classify_caller_query (main.bbn Qmake) 0 [main.query] main.query)
      as (Hfull & _).
    + reflexivity.
    + apply valid_query_check; vm_compute; reflexivity.
    + edestruct Hfull as (Hrun & _).
      * vm_compute. reflexivity.
      * vm_compute. reflexivity.
      * vm_compute. reflexivity.
      * rewrite Hrun. vm_compute. reflexivity.
  - destruct (classify_caller_query (main.bbn Qmake) 0 [main.query_partial]
                main.query_partial) as (_ & _ & Hpartial).
    + reflexivity.
    + apply valid_query_check; vm_compute; reflexivity.
    + apply Hpartial. vm_compute. discriminate.
Defined.

Lemma classify_without_parents_witness :
  (classify inputs.roots 0 [{[ "d" := "t" ]}]).1 = Raise TypeError.
Proof.
  apply (classify_without_parents inputs.roots 0 [{[ "d" := "t" ]}] {[ "d" := "t" ]}).
  - apply Forall_forall. vm_compute. repeat constructor.
  - reflexivity.
  - apply valid_query_check; vm_compute; reflexivity.
Defined.

(** * Further properties of the code *)

Section Outcomes.
Context {R : Type} `{Number R}.
Implicit Types (self : BBN R) (cn : BBN_Node R) (d c : dict) (h : heap).

(** ** The answer only depends on the contents of the query *)

Lemma classify_result_eq self (q : loc) h d :
  h !! q = Some d → (classify self q h).1 = classify_result self d.
Proof.
  intros Hq. rewrite (classify_unfold _ _ _ _ Hq). unfold classify_result.
  case_bool_decide as Hd; [done|].
  destruct (forallb (in_graph self) (map fst (map_to_list d))); cbn [negb]; [|done].
  case_bool_decide as Hus.
  - rewrite (_classify_all_evidence_eq _ _ _ _ Hq).
    destruct (score self "t" d); [|done]. cbn. by destruct (score self "f" d).
  - destruct (_classify_partial_evidence_eq self q (_get_unknowns self d) h d Hq)
      as (h' & -> & _).
    by destruct (mapR (score2 self) _).
Qed.

Lemma classify_store_lookup self (q : loc) h d :
  h !! q = Some d →
  ∃ d', (classify self q h).2 !! q = Some d'
        ∧ (d' = d ∨ ∃ v, d' = <[target self := v]> d ∧ d ≠ ∅
                         ∧ (∀ var, is_Some (d !! var) → var ∈ map fst (graph self))).
Proof.
  intros Hq. pose proof (lookup_lt_Some _ _ _ Hq) as Hlt.
  rewrite (classify_unfold _ _ _ _ Hq).
  case_bool_decide as Hd; [eauto|].
  destruct (forallb (in_graph self) (map fst (map_to_list d))) eqn:Hall;
    cbn [negb]; [|eauto].
  pose proof (proj1 (in_graph_all self d) Hall) as Hkeys.
  case_bool_decide as Hus.
  - rewrite (_classify_all_evidence_eq _ _ _ _ Hq).
    destruct (score self "t" d); [destruct (score self "f" d)|]; cbn;
      eexists; (split; [by apply list_lookup_insert_eq|]); right; eauto.
  - destruct (_classify_partial_evidence_eq self q (_get_unknowns self d) h d Hq)
      as (h' & -> & Hh'). cbn. rewrite Hh' by done. eauto.
Qed.

(** ** What the completions bind *)

Lemma extend_is_Some d us bs k :
  is_Some (d !! k) → is_Some (extend d us bs !! k).
Proof.
  revert d bs. induction us as [|u us IH]; intros d bs Hk; [done|].
  destruct bs as [|b bs]; [done|]. cbn [extend]. apply IH.
  destruct (decide (u = k)) as [->|Hne].
  - rewrite lookup_insert_eq. eauto.
  - by rewrite lookup_insert_ne.
Qed.

Lemma extend_binds d us bs u :
  length bs = length us → u ∈ us → is_Some (extend d us bs !! u).
Proof.
  revert d bs. induction us as [|u' us IH]; intros d bs Hlen Hu.
  - by apply elem_of_nil in Hu.
  - destruct bs as [|b bs]; [done|]. cbn [extend].
    apply elem_of_cons in Hu as [->|Hu].
    + apply extend_is_Some. rewrite lookup_insert_eq. eauto.
    + apply IH; [|done]. cbn in Hlen. lia.
Qed.

Lemma extend_values (P : string → Prop) d us bs :
  P "t" → P "f" →
  (∀ k x, d !! k = Some x → P x) →
  ∀ k x, extend d us bs !! k = Some x → P x.
Proof.
  intros Ht Hf. revert d bs. induction us as [|u us IH]; intros d bs Hd; [done|].
  destruct bs as [|b bs]; [done|]. cbn [extend]. apply IH.
  intros k x. destruct (decide (u = k)) as [->|Hne].
  - rewrite lookup_insert_eq. intros [= <-]. by destruct b.
  - rewrite lookup_insert_ne by done. apply Hd.
Qed.

Lemma extend_insert_ne d us bs k v :
  k ∉ us → extend (<[k := v]> d) us bs = <[k := v]> (extend d us bs).
Proof.
  revert d bs. induction us as [|u us IH]; intros d bs Hk; [done|].
  destruct bs as [|b bs]; [done|]. cbn [extend].
  apply not_elem_of_cons in Hk as [Hne Hk].
  rewrite <- IH by done. f_equal. by apply insert_insert_ne.
Qed.

Lemma completions_elem d us c :
  c ∈ completions d us ↔ ∃ bs, length bs = length us ∧ c = extend d us bs.
Proof.
  unfold completions. rewrite list_elem_of_fmap. split.
  - intros (bs & -> & Hin). exists bs. split; [|done].
    by apply assignments_each_length.
  - intros (bs & Hlen & ->). exists bs. split; [done|].
    rewrite <- Hlen. apply assignments_complete.
Qed.

Lemma _get_unknowns_elem self d k :
  k ∈ _get_unknowns self d
  ↔ k ∈ map fst (graph self) ∧ d !! k = None ∧ k ≠ target self.
Proof. unfold _get_unknowns. rewrite list_elem_of_filter. tauto. Qed.

(** Every assignment that [classify] scores binds the target and every
    label of the graph. *)
Lemma scored_assignment_binds self d c v k :
  c ∈ completions d (_get_unknowns self d) →
  k ∈ map fst (graph self) ∨ k = target self →
  is_Some (<[target self := v]> c !! k).
Proof.
  intros (bs & Hlen & ->)%completions_elem Hk.
  destruct (decide (target self = k)) as [<-|Hne].
  { rewrite lookup_insert_eq. eauto. }
  rewrite lookup_insert_ne by done. destruct Hk as [Hk|Hk]; [|congruence].
  destruct (d !! k) as [x|] eqn:Hdk.
  - apply extend_is_Some. rewrite Hdk. eauto.
  - apply extend_binds; [done|]. apply _get_unknowns_elem. auto.
Qed.

(** ** What [classify] can raise *)

(** X1. Whatever the network and the query, [classify] raises nothing but
    its two [BadQueryError]s, a [KeyError] or the [TypeError] of [reduce];
    the guard of [get_prob] for nodes without parents is never triggered
    from [classify]. On a query that passes the checks, the [TypeError]
    occurs exactly when no node of the network has parents. *)
Theorem classify_exceptions self (q : loc) h d :
  h !! q = Some d →
  (∀ e, (classify self q h).1 = Raise e →
        e = BadQueryError QueryIsEmpty ∨ e = BadQueryError VariableNotInGraph
        ∨ e = TypeError ∨ ∃ key, e = KeyError key)
  ∧ (valid_query self d →
     ((classify self q h).1 = Raise TypeError ↔ scored_nodes self = [])).
Proof.
  intros Hq. split.
  - intros e. rewrite (classify_unfold _ _ _ _ Hq).
    case_bool_decide as Hd; [intros [= <-]; auto|].
    destruct (forallb (in_graph self) (map fst (map_to_list d))) eqn:Hall;
      cbn [negb]; [|intros [= <-]; auto].
    assert (valid_query self d) as Hv by (split; [done|by apply in_graph_all]).
    rewrite <- (classify_valid _ _ _ _ Hq Hv). intros Hr.
    destruct (classify_valid_exn self q h d e Hq Hv Hr) as (c & v & _ & _ & Hs).
    destruct (_query_exn _ _ _ Hs) as [->|[key ->]]; eauto.
  - intros Hv. split.
    + intros Hr.
      destruct (classify_valid_exn self q h d _ Hq Hv Hr) as (c & v & _ & _ & Hs).
      by eapply _query_TypeError.
    + intros Hs. pose proof (classify_outcome self q h d Hq Hv) as Hout.
      pose proof (completions_nonempty d (_get_unknowns self d)) as Hne.
      destruct (completions d (_get_unknowns self d)) as [|c cs]; [done|].
      cbn [mapR] in Hout.
      assert (score2 self c = Raise TypeError) as Hc.
      { unfold score2, score. rewrite !(_query_no_scored_nodes _ _ Hs). reflexivity. }
      by rewrite Hc in Hout.
Qed.

(** X2. On a query that passes the checks, a [KeyError] of [classify] has
    one of two causes: its key is a parent label that is neither a label of
    the network nor the target, or it is the concatenation of the parent
    values of a node with parents, under one of the scored assignments, and
    the table of that node has no entry for it. *)
Theorem classify_KeyError_cause self (q : loc) h d key :
  h !! q = Some d → valid_query self d →
  (classify self q h).1 = Raise (KeyError key) →
  (∃ item, item ∈ scored_nodes self ∧ key ∈ parents item.2
           ∧ (key ∉ map fst (graph self)) ∧ key ≠ target self)
  ∨ (∃ item c v vals,
       item ∈ scored_nodes self
       ∧ c ∈ completions d (_get_unknowns self d) ∧ (v = "t" ∨ v = "f")
       ∧ mapR (getitem (<[target self := v]> c)) (parents item.2) = Ok vals
       ∧ key = join vals ∧ p_table item.2 !! key = None).
Proof.
  intros Hq Hv Hr.
  destruct (classify_valid_exn self q h d _ Hq Hv Hr) as (c & v & Hc & Hsym & Hs).
  unfold score in Hs. rewrite _query_factors in Hs.
  destruct (mapR (factor _) (scored_nodes self)) as [ps|e] eqn:Hm; cbn in Hs.
  { by destruct ps. }
  injection Hs as ->. apply mapR_Raise in Hm as (item & Hitem & Hf).
  pose proof Hitem as [Hp Hin]%list_elem_of_filter.
  unfold factor in Hf.
  destruct (mapR (getitem _) (parents item.2)) as [vals|e] eqn:Hvals; cbn in Hf.
  - destruct (getitem _ item.1) as [val|e] eqn:Hval; cbn in Hf.
    + rewrite get_prob_parents in Hf by done.
      destruct (p_table item.2 !! join vals) eqn:Htab; [done|].
      injection Hf as <-. right. exists item, c, v, vals. by split_and!.
    + exfalso. unfold getitem in Hval.
      destruct (scored_assignment_binds self d c v item.1 Hc) as [x Hx].
      { left. apply list_elem_of_fmap. by exists item. }
      by rewrite Hx in Hval.
  - injection Hf as ->. apply mapR_Raise in Hvals as (p & Hpin & Hget).
    unfold getitem in Hget.
    destruct (<[target self := v]> c !! p) eqn:Hlook; [done|].
    injection Hget as <-. left. exists item. split_and!; [done|done| |].
    + intros Hk.
      destruct (scored_assignment_binds self d c v p Hc (or_introl Hk)) as [x Hx].
      congruence.
    + intros ->. by rewrite lookup_insert_eq in Hlook.
Qed.

(** X3. [classify] returns a Boolean, and raises nothing, when the query
    passes the checks and binds its variables to 't' or 'f', some node has
    parents, every parent label is a label of the network or the target, and
    the table of every node with parents has an entry for each combination
    of truth values of its parents. *)
Theorem classify_total self (q : loc) h d :
  h !! q = Some d → valid_query self d →
  (∀ var x, d !! var = Some x → x = "t" ∨ x = "f") →
  scored_nodes self ≠ [] →
  (∀ item p, item ∈ scored_nodes self → p ∈ parents item.2 →
             p ∈ map fst (graph self) ∨ p = target self) →
  (∀ item bs, item ∈ scored_nodes self → length bs = length (parents item.2) →
              is_Some (p_table item.2 !! join (sym <$> bs))) →
  ∃ b, (classify self q h).1 = Ok b.
Proof.
  intros Hq Hv Hvals Hscored Hclosed Hcomplete.
  assert (∀ c v, c ∈ completions d (_get_unknowns self d) → v = "t" ∨ v = "f" →
                 ∃ s, score self v c = Ok s) as Hscore.
  { intros c v Hc Hsym. unfold score. rewrite _query_factors.
    assert (∀ k x, <[target self := v]> c !! k = Some x → x = "t" ∨ x = "f") as Hq'.
    { intros k x. destruct (decide (target self = k)) as [<-|Hne].
      - rewrite lookup_insert_eq. by intros [= <-].
      - rewrite lookup_insert_ne by done.
        apply completions_elem in Hc as (bs & _ & ->).
        apply (extend_values (λ x, x = "t" ∨ x = "f")); auto. }
    destruct (mapR (factor _) (scored_nodes self)) as [ps|e] eqn:Hm; cbn.
    - destruct ps as [|p ps]; cbn; [|eauto].
      apply mapR_length in Hm. by destruct (scored_nodes self).
    - exfalso. apply mapR_Raise in Hm as (item & Hitem & Hf).
      pose proof Hitem as [Hp Hin]%list_elem_of_filter.
      assert (∃ bs, mapR (getitem (<[target self := v]> c)) (parents item.2)
                    = Ok (sym <$> bs) ∧ length bs = length (parents item.2))
        as (bs & Hbs & Hlen).
      { assert (∀ p, p ∈ parents item.2 →
                     p ∈ map fst (graph self) ∨ p = target self) as Hps
          by (intros p; by apply Hclosed).
        clear Hf Hp. induction (parents item.2) as [|p ps IH].
        - by exists [].
        - destruct IH as (bs & Hbs & Hlen).
          { intros p' Hp'. apply Hps. by apply list_elem_of_further. }
          destruct (scored_assignment_binds self d c v p Hc) as [x Hx].
          { apply Hps, list_elem_of_here. }
          assert (getitem (<[target self := v]> c) p = Ok x) as Hget
            by (unfold getitem; by rewrite Hx).
          destruct (Hq' _ _ Hx) as [-> | ->].
          + exists (true :: bs). cbn [mapR]. rewrite Hget, Hbs. cbn.
            split; [done|]. by rewrite Hlen.
          + exists (false :: bs). cbn [mapR]. rewrite Hget, Hbs. cbn.
            split; [done|]. by rewrite Hlen. }
      unfold factor in Hf. rewrite Hbs in Hf. cbn in Hf.
      destruct (scored_assignment_binds self d c v item.1 Hc) as [x Hx].
      { left. apply list_elem_of_fmap. by exists item. }
      unfold getitem in Hf. rewrite Hx in Hf. cbn in Hf.
      rewrite get_prob_parents in Hf by done.
      destruct (Hcomplete item bs Hitem Hlen) as [prob Hprob].
      by rewrite Hprob in Hf. }
  pose proof (classify_outcome self q h d Hq Hv) as Hout.
  destruct (mapR (score2 self) _) as [pairs|e] eqn:Hm; [done|].
  apply mapR_Raise in Hm as (c & Hc & Hraise). exfalso.
  destruct (Hscore c "t" Hc) as [yes Hyes]; [auto|].
  destruct (Hscore c "f" Hc) as [no Hno]; [auto|].
  unfold score2 in Hraise. by rewrite Hyes, Hno in Hraise.
Qed.

(** ** Evidence on the target, and calling again *)

Lemma mapR_map {A B C : Type} (f : B → result C) (g : A → B) l :
  mapR f (map g l) = mapR (λ x, f (g x)) l.
Proof. induction l as [|x l IH]; cbn [map mapR]; [done|]. by rewrite IH. Qed.

Lemma in_graph_all_insert self d k v :
  k ∈ map fst (graph self) →
  forallb (in_graph self) (map fst (map_to_list (<[k := v]> d)))
  = forallb (in_graph self) (map fst (map_to_list d)).
Proof.
  intros Hk.
  destruct (forallb (in_graph self) (map fst (map_to_list d))) eqn:Hall.
  - apply in_graph_all. pose proof (proj1 (in_graph_all self d) Hall) as Hd.
    intros var. destruct (decide (k = var)) as [<-|Hne]; [done|].
    rewrite lookup_insert_ne by done. apply Hd.
  - apply in_graph_some. apply in_graph_some in Hall as (var & Hvar & Hnot).
    exists var. split; [|done]. destruct (decide (k = var)) as [<-|Hne]; [done|].
    by rewrite lookup_insert_ne.
Qed.

Lemma _get_unknowns_insert self d k v :
  is_Some (d !! k) ∨ k = target self →
  _get_unknowns self (<[k := v]> d) = _get_unknowns self d.
Proof.
  intros Hk. unfold _get_unknowns. apply list_filter_iff. intros node.
  destruct (decide (k = node)) as [<-|Hne].
  - rewrite lookup_insert_eq. destruct Hk as [[x Hx]|Hk]; [rewrite Hx|];
      intuition congruence.
  - by rewrite lookup_insert_ne.
Qed.

Lemma completions_insert d us k v :
  k ∉ us → completions (<[k := v]> d) us = map (insert k v) (completions d us).
Proof.
  intros Hk. unfold completions. rewrite map_map. apply map_ext.
  intros bs. by apply extend_insert_ne.
Qed.

Lemma score_insert_target self x d v :
  score self x (<[target self := v]> d) = score self x d.
Proof. unfold score. by rewrite insert_insert_eq. Qed.

Lemma classify_result_insert_target self d v :
  d ≠ ∅ → target self ∈ map fst (graph self) →
  classify_result self (<[target self := v]> d) = classify_result self d.
Proof.
  intros Hd Htgt. unfold classify_result.
  rewrite (bool_decide_eq_false_2 _ (insert_non_empty d (target self) v)).
  rewrite (bool_decide_eq_false_2 _ Hd).
  rewrite in_graph_all_insert, _get_unknowns_insert by auto.
  destruct (negb _); [done|]. case_bool_decide as Hus.
  - by rewrite !score_insert_target.
  - rewrite completions_insert.
    + rewrite mapR_map. f_equal. apply mapR_ext_in. intros c _.
      unfold score2. by rewrite !score_insert_target.
    + intros Hin. apply _get_unknowns_elem in Hin. tauto.
Qed.

(** X4. Evidence on the target is ignored: when the target is a label of
    the network, a non-empty query and the same query with a binding of the
    target added or replaced get the same answer or the same exception. *)
Theorem target_evidence_ignored self (q1 q2 : loc) h1 h2 d v :
  h1 !! q1 = Some (<[target self := v]> d) → h2 !! q2 = Some d →
  d ≠ ∅ → target self ∈ map fst (graph self) →
  (classify self q1 h1).1 = (classify self q2 h2).1.
Proof.
  intros Hq1 Hq2 Hd Htgt.
  rewrite (classify_result_eq _ _ _ _ Hq1), (classify_result_eq _ _ _ _ Hq2).
  by apply classify_result_insert_target.
Qed.

(** X5. Calling [classify] a second time on the same dictionary, in the
    store the first call left, gives the same answer or the same exception,
    although the first call may have written the target into that
    dictionary. The target has to be a label of the network. *)
Theorem classify_again self (q : loc) h d :
  h !! q = Some d → target self ∈ map fst (graph self) →
  (classify self q (classify self q h).2).1 = (classify self q h).1.
Proof.
  intros Hq Htgt.
  destruct (classify_store_lookup self q h d Hq) as (d' & Hq' & Hd').
  rewrite (classify_result_eq _ _ _ _ Hq'), (classify_result_eq _ _ _ _ Hq).
  destruct Hd' as [->|(v & -> & Hd & _)]; [done|].
  by apply classify_result_insert_target.
Qed.

(** ** Truth symbols *)

Lemma _query_insert_not_t self a var v :
  v ≠ "t" → (∀ item, item ∈ scored_nodes self → var ∉ parents item.2) →
  _query self (<[var := v]> a) = _query self (<[var := "f"]> a).
Proof.
  intros Hv Hnp. rewrite !_query_factors. f_equal.
  apply mapR_ext_in. intros item Hitem.
  pose proof Hitem as [Hp _]%list_elem_of_filter.
  unfold factor.
  assert (mapR (getitem (<[var := v]> a)) (parents item.2)
          = mapR (getitem (<[var := "f"]> a)) (parents item.2)) as ->.
  { apply mapR_ext_in. intros p Hpin. unfold getitem.
    rewrite !lookup_insert_ne; [done|intros ->; by eapply Hnp..]. }
  destruct (mapR _ (parents item.2)) as [vals|e]; cbn; [|done].
  unfold getitem. destruct (decide (var = item.1)) as [->|Hne].
  - rewrite !lookup_insert_eq. cbn. rewrite !get_prob_parents by done.
    by rewrite (bool_decide_eq_false_2 _ Hv).
  - by rewrite !lookup_insert_ne.
Qed.

(** X6. Truth symbols are not checked: for a variable that is the parent
    of no node, evidence with any symbol other than 't' is classified like
    evidence 'f'. *)
Theorem symbol_other_than_t_is_false self (q1 q2 : loc) h1 h2 d var v :
  h1 !! q1 = Some (<[var := v]> d) → h2 !! q2 = Some (<[var := "f"]> d) →
  v ≠ "t" → (∀ item, item ∈ scored_nodes self → var ∉ parents item.2) →
  (classify self q1 h1).1 = (classify self q2 h2).1.
Proof.
  intros Hq1 Hq2 Hv Hnp.
  rewrite (classify_result_eq _ _ _ _ Hq1), (classify_result_eq _ _ _ _ Hq2).
  unfold classify_result.
  rewrite !(bool_decide_eq_false_2 _ (insert_non_empty d var _)).
  assert (∀ x, _get_unknowns self (<[var := x]> d)
               = _get_unknowns self (<[var := "f"]> (<[var := x]> d))) as Hus.
  { intros x. symmetry. apply _get_unknowns_insert. left.
    rewrite lookup_insert_eq. eauto. }
  assert (∀ x, forallb (in_graph self) (map fst (map_to_list (<[var := x]> d)))
               = forallb (in_graph self) (map fst (map_to_list (<[var := "f"]> d))))
    as Hall.
  { intros x.
    destruct (forallb _ (map fst (map_to_list (<[var := "f"]> d)))) eqn:Hf.
    - apply in_graph_all. pose proof (proj1 (in_graph_all _ _) Hf) as Hk.
      intros k Hsome. apply Hk. destruct (decide (var = k)) as [<-|Hne].
      + rewrite lookup_insert_eq. eauto.
      + by rewrite lookup_insert_ne in Hsome |- *.
    - apply in_graph_some. apply in_graph_some in Hf as (k & Hsome & Hnot).
      exists k. split; [|done]. destruct (decide (var = k)) as [<-|Hne].
      + rewrite lookup_insert_eq. eauto.
      + by rewrite lookup_insert_ne in Hsome |- *. }
  rewrite (Hall v), (Hus v), insert_insert_eq.
  destruct (negb _); [done|].
  assert (∀ x c, score self x (<[var := v]> c) = score self x (<[var := "f"]> c))
    as Hscore.
  { intros x c. unfold score. destruct (decide (target self = var)) as [<-|Hne].
    - by rewrite !insert_insert_eq.
    - rewrite !(insert_insert_ne c (target self) var) by done.
      by apply _query_insert_not_t. }
  case_bool_decide as Hnil.
  - by rewrite !Hscore.
  - assert (var ∉ _get_unknowns self (<[var := "f"]> d)) as Hnotin.
    { intros Hin. apply _get_unknowns_elem in Hin. rewrite lookup_insert_eq in Hin.
      by destruct Hin as (_ & ? & _). }
    rewrite !completions_insert by done. rewrite !mapR_map. f_equal.
    apply mapR_ext_in. intros c _. unfold score2. by rewrite !Hscore.
Qed.

(** ** The tables of the nodes without parents *)

Lemma M_bind_ext {A B : Type} (m m' : M A) (f g : A → M B) h :
  m h = m' h → (∀ a h', f a h' = g a h') → (m ≫= f) h = (m' ≫= g) h.
Proof.
  intros Hm Hfg. rewrite !M_bind_eq, Hm. by destruct (m' h) as [[a|e] h'].
Qed.

Lemma foldM_ext {A B : Type} (f g : B → A → M B) l acc h :
  (∀ acc' x h', f acc' x h' = g acc' x h') → foldM f l acc h = foldM g l acc h.
Proof.
  intros Hfg. revert acc h. induction l as [|x l IH]; intros acc h; [done|].
  cbn [foldM]. apply M_bind_ext; [apply Hfg|]. intros acc' h'. apply IH.
Qed.

Lemma same_scoring_keys self self' :
  same_scoring self self' → map fst (graph self) = map fst (graph self').
Proof.
  intros [_ Hg]. induction Hg as [|a b g g' (Hk & _) _ IH]; [done|].
  cbn. by rewrite Hk, IH.
Qed.

Lemma same_scoring_query self self' a :
  same_scoring self self' → _query self a = _query self' a.
Proof.
  intros [_ Hg]. rewrite !_query_factors. f_equal. unfold scored_nodes.
  induction Hg as [|x y g g' (Hk & Hp & Ht) _ IH]; [done|].
  destruct (decide (parents x.2 = [])) as [Hx|Hx].
  - rewrite !filter_cons_False by (rewrite <- ?Hp; tauto). done.
  - rewrite !filter_cons_True by (rewrite <- ?Hp; done). cbn [mapR].
    rewrite IH. f_equal. unfold factor. rewrite <- Hk, <- Hp.
    destruct (mapR (getitem a) (parents x.2)) as [vals|e]; cbn; [|done].
    destruct (getitem a x.1) as [val|e]; cbn; [|done].
    rewrite !get_prob_parents by (rewrite <- ?Hp; done). by rewrite (Ht Hx).
Qed.

(** X7. The tables and the [label] fields of the nodes without parents are
    never read by [classify]: two networks with the same target, the same
    labels in the same order, the same parents and the same tables on the
    nodes with parents give the same scores, and [classify] gives the same
    outcome and leaves the same store. *)
Theorem root_tables_irrelevant self self' (q : loc) h :
  same_scoring self self' →
  (∀ a, _query self a = _query self' a)
  ∧ classify self q h = classify self' q h.
Proof.
  intros Hs. pose proof Hs as [Htgt _].
  pose proof (same_scoring_keys _ _ Hs) as Hkeys.
  assert (∀ a, _query self a = _query self' a) as Hquery
    by (intros a; by apply same_scoring_query).
  split; [done|].
  unfold classify. apply M_bind_ext; [done|]. intros d h'.
  unfold in_graph, _get_unknowns. rewrite Hkeys, Htgt.
  case_bool_decide; [done|]. destruct (negb _); [done|].
  case_bool_decide.
  - unfold _classify_all_evidence. rewrite Htgt.
    apply M_bind_ext; [done|]. intros _ h1.
    apply M_bind_ext; [done|]. intros d1 h2.
    apply M_bind_ext; [by rewrite Hquery|]. intros yes h3.
    apply M_bind_ext; [done|]. intros _ h4.
    apply M_bind_ext; [done|]. intros d2 h5.
    apply M_bind_ext; [by rewrite Hquery|]. done.
  - unfold _classify_partial_evidence.
    apply M_bind_ext; [done|]. intros queries h1.
    apply M_bind_ext; [|done]. apply foldM_ext. intros [ts fs] l h2.
    unfold _classify_partial_step. rewrite Htgt.
    apply M_bind_ext; [done|]. intros _ h3.
    apply M_bind_ext; [done|]. intros d1 h4.
    apply M_bind_ext; [by rewrite Hquery|]. intros pt h5.
    apply M_bind_ext; [done|]. intros _ h6.
    apply M_bind_ext; [done|]. intros d2 h7.
    apply M_bind_ext; [by rewrite Hquery|]. done.
Qed.

End Outcomes.

(** ** The constructor *)

Section Constructor.
Context {R : Type}.
Implicit Types (nodes : list (BBN_Node R)) (g : list (string * BBN_Node R)).

Lemma dict_set_elem g key (v : BBN_Node R) k n :
  NoDup (map fst g) →
  (k, n) ∈ dict_set g key v ↔ (k = key ∧ n = v) ∨ (k ≠ key ∧ (k, n) ∈ g).
Proof.
  induction g as [|[k' w] g IH]; intros Hnd; cbn [dict_set].
  - rewrite list_elem_of_singleton, elem_of_nil. intuition congruence.
  - cbn in Hnd. apply NoDup_cons in Hnd as [Hnotin Hnd].
    destruct (decide (k' = key)) as [->|Hne].
    + rewrite (bool_decide_eq_true_2 (key = key)) by done.
      rewrite !elem_of_cons. split.
      * intros [[= -> ->]|Hin]; [auto|]. right. split; [|auto].
        intros ->. apply Hnotin. apply list_elem_of_fmap. by exists (key, n).
      * intros [[-> ->]|[Hk [[= -> ->]|Hin]]]; auto. done.
    + rewrite (bool_decide_eq_false_2 (k' = key)) by done.
      rewrite !elem_of_cons, IH by done. split.
      * intros [[= -> ->]|[?|[? ?]]]; auto.
      * intros [?|[? [[= -> ->]|?]]]; auto.
Qed.

Lemma BBN_init_graph_snoc nodes (x : BBN_Node R) tgt vb :
  graph (BBN_init (nodes ++ [x]) tgt vb)
  = dict_set (graph (BBN_init nodes tgt vb)) (label x) x.
Proof. cbn [graph BBN_init]. by rewrite fold_left_app. Qed.

Lemma BBN_init_graph_items nodes tgt vb :
  (∀ k, k ∈ map fst (graph (BBN_init nodes tgt vb)) ↔ k ∈ map label nodes)
  ∧ (∀ k n, (k, n) ∈ graph (BBN_init nodes tgt vb)
            ↔ label n = k ∧ ∃ l1 l2, nodes = l1 ++ n :: l2 ∧ k ∉ map label l2)
  ∧ (NoDup (map label nodes) →
     graph (BBN_init nodes tgt vb) = map (λ n, (label n, n)) nodes).
Proof.
  induction nodes as [|x nodes IH] using rev_ind.
  { split_and!.
    - done.
    - intros k n. cbn. rewrite elem_of_nil. split; [done|].
      intros (_ & l1 & l2 & Heq & _). by destruct l1.
    - done. }
  destruct IH as (Hkeys & Helem & Hdistinct).
  pose proof (BBN_init_keys_NoDup nodes tgt vb) as Hnd.
  rewrite BBN_init_graph_snoc. split_and!.
  - intros k. rewrite dict_set_keys, map_app, elem_of_app. cbn [map].
    rewrite list_elem_of_singleton, <- Hkeys. case_bool_decide as Hin.
    + split; [auto|]. intros [Hk| ->]; done.
    + by rewrite elem_of_app, list_elem_of_singleton.
  - intros k n. rewrite dict_set_elem by done. rewrite Helem. split.
    + intros [[-> ->]|(Hne & Hlab & l1 & l2 & -> & Hnot)].
      * split; [done|]. exists nodes, []. split; [done|]. apply not_elem_of_nil.
      * split; [done|]. exists l1, (l2 ++ [x]). split; [by rewrite <- app_assoc|].
        rewrite map_app, elem_of_app. cbn. rewrite list_elem_of_singleton.
        intros [?|?]; congruence.
    + intros (Hlab & l1 & l2 & Heq & Hnot).
      destruct l2 as [|y l2 _] using rev_ind.
      * apply app_inj_tail in Heq as [-> ->]. auto.
      * rewrite app_comm_cons, app_assoc in Heq.
        apply app_inj_tail in Heq as [-> ->].
        rewrite map_app, elem_of_app in Hnot. cbn in Hnot.
        rewrite list_elem_of_singleton in Hnot.
        right. split_and!; [intros ->; tauto|done|]. exists l1, l2. tauto.
  - rewrite map_app. intros [Hnd' [Hdisj _]]%NoDup_app.
    rewrite Hdistinct by done. cbn [map].
    assert (label x ∉ map fst (map (λ n, (label n, n)) nodes)) as Hfresh.
    { rewrite map_map. cbn. intros Hin. apply (Hdisj _ Hin), list_elem_of_here. }
    clear -Hfresh. induction nodes as [|y nodes IH]; [done|].
    cbn in Hfresh |- *. apply not_elem_of_cons in Hfresh as [Hne Hfresh].
    rewrite (bool_decide_eq_false_2 (label y = label x)) by done.
    by rewrite IH.
Qed.

(** X8. The graph built by the constructor has pairwise different keys,
    which are the labels of the nodes; the node stored under a label is the
    last node of the list with that label; when the labels of the nodes are
    pairwise different, the graph lists the nodes in the order given, each
    under its label. *)
Theorem BBN_init_graph nodes tgt vb :
  NoDup (map fst (graph (BBN_init nodes tgt vb)))
  ∧ (∀ k, k ∈ map fst (graph (BBN_init nodes tgt vb)) ↔ k ∈ map label nodes)
  ∧ (∀ k n, (k, n) ∈ graph (BBN_init nodes tgt vb)
            ↔ label n = k ∧ ∃ l1 l2, nodes = l1 ++ n :: l2 ∧ k ∉ map label l2)
  ∧ (NoDup (map label nodes) →
     graph (BBN_init nodes tgt vb) = map (λ n, (label n, n)) nodes).
Proof.
  split; [apply BBN_init_keys_NoDup|apply BBN_init_graph_items].
Qed.

(** X9. When the labels of the nodes are pairwise different, the unknowns
    of a query are the labels recorded in [vars] (all labels but the target,
    in order) that the query does not bind. *)
Theorem _get_unknowns_vars nodes tgt vb (d : dict) :
  NoDup (map label nodes) →
  _get_unknowns (BBN_init nodes tgt vb) d
  = filter (λ k, d !! k = None) (vars (BBN_init nodes tgt vb)).
Proof.
  intros Hnd. unfold _get_unknowns.
  destruct (BBN_init_graph_items nodes tgt vb) as (_ & _ & Hgraph).
  rewrite (Hgraph Hnd), map_map. cbn [fst target vars BBN_init].
  clear. induction nodes as [|x nodes IH]; [done|].
  cbn [map]. destruct (decide (label x = tgt)) as [Heq|Hne].
  - rewrite filter_cons_False by tauto. rewrite (filter_cons_False _ x) by tauto.
    done.
  - rewrite (filter_cons_True (λ node, label node ≠ tgt)) by done. cbn [map].
    destruct (d !! label x) eqn:Hd.
    + rewrite !filter_cons_False; [done|congruence|intros [? _]; congruence].
    + rewrite !filter_cons_True by done. by rewrite IH.
Qed.

End Constructor.

(** ** The store during the enumeration *)

Lemma _build_queries_outer_size us ls cs h :
  cells h ls cs →
  ∃ ls' h',
    foldM (λ queries u, repeatM (length queries) (_build_queries_step u) queries)
          us ls h = (Ok ls', h ++ h')
    ∧ length h' = length ls * (2 ^ S (length us) - 2).
Proof.
  revert ls cs h. induction us as [|u us IH]; intros ls cs h Hc.
  - exists ls, []. rewrite app_nil_r. split; [reflexivity|]. cbn. lia.
  - cbn [foldM]. rewrite M_bind_eq.
    pose proof (_build_queries_inner u ls [] cs h Hc) as Hin.
    rewrite app_nil_r in Hin. rewrite Hin. cbn [app].
    destruct (IH (seq (length h) (2 * length ls)) (double u cs) (h ++ double u cs))
      as (ls' & h' & Hrun & Hlen).
    { rewrite (cells_length _ _ _ Hc), <- (double_length u cs). apply cells_seq. }
    exists ls', (double u cs ++ h'). rewrite app_assoc. split; [done|].
    rewrite length_app, Hlen, double_length, length_seq.
    rewrite <- (cells_length _ _ _ Hc). cbn [length].
    rewrite !Nat.pow_succ_r'.
    pose proof (Nat.pow_nonzero 2 (length us) ltac:(lia)) as Hpow.
    destruct (2 ^ length us) as [|n]; [done|].
    replace (2 * S n - 2) with (2 * n) by lia.
    replace (2 * (2 * S n) - 2) with (4 * n + 2) by lia. lia.
Qed.

(** X10. [_build_queries] over [k] unknowns adds [2^(k+1) - 2] dictionaries
    to the store, two copies for each dictionary of each round, and writes
    into none of the dictionaries that were there before, the caller's query
    included. *)
Theorem _build_queries_store (q : loc) (unknowns : list string) (h : heap) (d : dict) :
  h !! q = Some d →
  ∃ queries h',
    _build_queries q unknowns h = (Ok queries, h ++ h')
    ∧ length h' = 2 ^ S (length unknowns) - 2
    ∧ ∀ l, l < length h → (h ++ h') !! l = h !! l.
Proof.
  intros Hq. unfold _build_queries.
  destruct (_build_queries_outer_size unknowns [q] [d] h) as (ls & h' & Hrun & Hlen).
  { by constructor. }
  exists ls, h'. split_and!; [done|rewrite Hlen; cbn [length]; apply Nat.mul_1_l|].
  intros l Hl. by apply lookup_app_l.
Qed.

(** ** Scores in exact arithmetic *)

Lemma Q_unit_mult (x y : Q) :
  (0 <= x <= 1)%Q → (0 <= y <= 1)%Q → (0 <= x * y <= 1)%Q.
Proof.
  intros [Hx0 Hx1] [Hy0 Hy1]. split.
  - by apply Qmult_le_0_compat.
  - apply Qle_trans with (1 * y)%Q; [by apply Qmult_le_compat_r|].
    by rewrite Qmult_1_l.
Qed.

Lemma Q_unit_complement (x : Q) : (0 <= x <= 1)%Q → (0 <= 1 - x <= 1)%Q.
Proof.
  intros [Hx0 Hx1]. split.
  - unfold Qminus. by rewrite <- Qle_minus_iff.
  - apply Qle_minus_iff. by ring_simplify.
Qed.

Lemma Q_unit_product (ps : list Q) (p : Q) :
  (0 <= p <= 1)%Q → Forall (λ x, (0 <= x <= 1)%Q) ps →
  (0 <= fold_left Qmult ps p <= 1)%Q.
Proof.
  intros Hp Hps. revert p Hp. induction Hps as [|x ps Hx _ IH]; intros p Hp; [done|].
  cbn [fold_left]. apply IH. by apply Q_unit_mult.
Qed.

(** X11. In exact arithmetic, when the entries of the tables of the nodes
    with parents lie between 0 and 1, so does every score of [_query]. *)
Theorem _query_unit_interval (self : BBN Q) (a : dict) (s : Q) :
  (∀ item key p, item ∈ scored_nodes self → p_table item.2 !! key = Some p →
                 (0 <= p <= 1)%Q) →
  _query self a = Ok s → (0 <= s <= 1)%Q.
Proof.
  intros Htab. rewrite _query_factors.
  destruct (mapR (factor a) (scored_nodes self)) as [ps|e] eqn:Hm; cbn; [|done].
  assert (Forall (λ x, (0 <= x <= 1)%Q) ps) as Hps.
  { apply mapR_Ok in Hm. apply Forall_forall. intros x Hx.
    apply list_elem_of_lookup in Hx as [i Hi].
    destruct (Forall2_lookup_r _ _ _ _ _ Hm Hi) as (item & Hitem & Hf).
    apply list_elem_of_lookup_2 in Hitem.
    pose proof Hitem as [Hp _]%list_elem_of_filter.
    unfold factor in Hf.
    destruct (mapR (getitem a) (parents item.2)) as [vals|]; cbn in Hf; [|done].
    destruct (getitem a item.1) as [val|]; cbn in Hf; [|done].
    rewrite get_prob_parents in Hf by done.
    destruct (p_table item.2 !! join vals) as [prob|] eqn:Hprob; [|done].
    injection Hf as <-. pose proof (Htab _ _ _ Hitem Hprob) as Hunit.
    case_bool_decide; [done|]. by apply Q_unit_complement. }
  destruct ps as [|p ps]; cbn; [done|]. intros [= <-].
  apply Forall_cons in Hps as [Hp Hps]. by apply Q_unit_product.
Qed.

(** ** The verbose output *)

Section VerboseOutput.
Context {R : Type} `{Number R} (show : R → string).
Implicit Types (self : BBN R) (d c : dict) (h : heap).

Lemma W_bind_fst {A B : Type} (m : W A) (f : A → W B) :
  (m ≫= f).1 = m.1 ≫= (λ a, (f a).1).
Proof. destruct m as [[a|e] out]; [|done]. cbn. by destruct (f a). Qed.

Lemma W_bind_snd_nil {A B : Type} (m : W A) (f : A → W B) :
  m.2 = [] → (∀ a, (f a).2 = []) → (m ≫= f).2 = [].
Proof.
  destruct m as [[a|e] out]; cbn; [|done]. intros -> Hf.
  specialize (Hf a). by destruct (f a).
Qed.

Lemma MT_bind_erase {A B : Type} (m : MT A) (m0 : M A) (f : A → MT B)
  (f0 : A → M B) h :
  (m h).1 = m0 h → (∀ a h', (f a h').1 = f0 a h') →
  ((m ≫= f) h).1 = (m0 ≫= f0) h.
Proof.
  intros Hm Hf. rewrite M_bind_eq, <- Hm. unfold mbind, MT_bind.
  destruct (m h) as [[[a|e] h'] out]; cbn; [|done].
  rewrite <- Hf. by destruct (f a h').
Qed.

Lemma MT_bind_snd_nil {A B : Type} (m : MT A) (f : A → MT B) h :
  (m h).2 = [] → (∀ a h', (f a h').2 = []) → ((m ≫= f) h).2 = [].
Proof.
  intros Hm Hf. unfold mbind, MT_bind.
  destruct (m h) as [[[a|e] h'] out]; cbn in Hm |- *; [|done]. subst out.
  specialize (Hf a h'). by destruct (f a h').
Qed.

Lemma shown_parents (q : dict) ps vals :
  mapR (getitem q) ps = Ok vals →
  ∃ shown, mapR (λ p', v ← getitem q p'; Ok (p' +:+ "=" +:+ v)) ps = Ok shown.
Proof.
  revert vals. induction ps as [|p ps IH]; intros vals; cbn [mapR]; [eauto|].
  destruct (getitem q p) as [v|]; cbn; [|done].
  destruct (mapR (getitem q) ps) as [vals'|]; cbn; [|done]. intros _.
  destruct (IH vals') as [shown ->]; [done|]. cbn. eauto.
Qed.

Lemma _query_step_print_fst self (q : dict) probs item :
  (_query_step_print show self q probs item).1 = _query_step q probs item.
Proof.
  destruct item as [node cn]. unfold _query_step_print, _query_step.
  destruct (has_parents cn); [|done].
  destruct (mapR (getitem q) (parents cn)) as [vals|e] eqn:Hvals; cbn; [|done].
  destruct (getitem q node) as [val|e] eqn:Hval; cbn; [|done].
  destruct (get_prob cn val (join vals)) as [p|e]; cbn; [|done].
  destruct (verbose self); cbn; [|done].
  by destruct (shown_parents q _ _ Hvals) as [shown ->].
Qed.

Lemma _query_step_print_snd self (q : dict) probs item :
  verbose self = false → (_query_step_print show self q probs item).2 = [].
Proof.
  intros Hvb. destruct item as [node cn]. unfold _query_step_print.
  rewrite Hvb. destruct (has_parents cn); [|done].
  destruct (mapR (getitem q) (parents cn)) as [vals|e]; cbn; [|done].
  destruct (getitem q node) as [val|e]; cbn; [|done].
  by destruct (get_prob cn val (join vals)).
Qed.

Lemma _query_print_fst self (q : dict) :
  (_query_print show self q).1 = _query self q.
Proof.
  unfold _query_print, _query. rewrite W_bind_fst.
  assert (∀ items probs,
            (foldW (_query_step_print show self q) items probs).1
            = foldR (_query_step q) items probs) as ->.
  { induction items as [|item items IH]; intros probs; [done|].
    cbn [foldW foldR]. rewrite W_bind_fst, _query_step_print_fst.
    destruct (_query_step q probs item); cbn; [apply IH|done]. }
  destruct (foldR _ _ _) as [probs|e]; cbn; [|done].
  by destruct (verbose self).
Qed.

Lemma _query_print_snd self (q : dict) :
  verbose self = false → (_query_print show self q).2 = [].
Proof.
  intros Hvb. unfold _query_print. apply W_bind_snd_nil.
  - generalize (@nil R). induction (graph self) as [|item items IH]; intros probs; [done|].
    cbn [foldW]. apply W_bind_snd_nil; [by apply _query_step_print_snd|done].
  - intros probs. by rewrite Hvb.
Qed.

Lemma liftW_query_fst self d h :
  (liftW (_query_print show self d) h).1 = lift (_query self d) h.
Proof. unfold liftW, lift. cbn. by rewrite _query_print_fst. Qed.

Lemma liftW_query_snd self d h :
  verbose self = false → (liftW (_query_print show self d) h).2 = [].
Proof. intros Hvb. unfold liftW. cbn. by apply _query_print_snd. Qed.

Lemma foldMT_erase {A B : Type} (f : B → A → MT B) (f0 : B → A → M B) l acc h :
  (∀ acc' x h', (f acc' x h').1 = f0 acc' x h') →
  (foldMT f l acc h).1 = foldM f0 l acc h.
Proof.
  intros Hf. revert acc h. induction l as [|x l IH]; intros acc h; [done|].
  cbn [foldMT foldM]. apply MT_bind_erase; [apply Hf|]. intros acc' h'. apply IH.
Qed.

Lemma foldMT_snd_nil {A B : Type} (f : B → A → MT B) l acc h :
  (∀ acc' x h', (f acc' x h').2 = []) → (foldMT f l acc h).2 = [].
Proof.
  intros Hf. revert acc h. induction l as [|x l IH]; intros acc h; [done|].
  cbn [foldMT]. apply MT_bind_snd_nil; [apply Hf|]. intros acc' h'. apply IH.
Qed.

Lemma classify_print_fst self (q : loc) h :
  (classify_print show self q h).1 = classify self q h.
Proof.
  unfold classify_print, classify. apply MT_bind_erase; [done|]. intros d h1.
  case_bool_decide; [done|]. destruct (negb _); [done|].
  case_bool_decide.
  - unfold _classify_all_evidence_print, _classify_all_evidence.
    apply MT_bind_erase; [done|]. intros _ h2.
    apply MT_bind_erase; [done|]. intros d1 h3.
    apply MT_bind_erase; [apply liftW_query_fst|]. intros yes h4.
    apply MT_bind_erase; [done|]. intros _ h5.
    apply MT_bind_erase; [done|]. intros d2 h6.
    apply MT_bind_erase; [apply liftW_query_fst|]. intros no h7.
    unfold mbind, MT_bind, liftW. by destruct (verbose self).
  - unfold _classify_partial_evidence_print, _classify_partial_evidence.
    apply MT_bind_erase; [done|]. intros queries h2.
    apply MT_bind_erase; [|done]. apply foldMT_erase. intros [ts fs] l h3.
    unfold _classify_partial_step_print, _classify_partial_step.
    apply MT_bind_erase; [done|]. intros _ h4.
    apply MT_bind_erase; [done|]. intros d1 h5.
    apply MT_bind_erase; [apply liftW_query_fst|]. intros pt h6.
    apply MT_bind_erase; [done|]. intros _ h7.
    apply MT_bind_erase; [done|]. intros d2 h8.
    apply MT_bind_erase; [apply liftW_query_fst|]. done.
Qed.

Lemma classify_print_snd self (q : loc) h :
  verbose self = false → (classify_print show self q h).2 = [].
Proof.
  intros Hvb. unfold classify_print. apply MT_bind_snd_nil; [done|]. intros d h1.
  case_bool_decide; [done|]. destruct (negb _); [done|].
  case_bool_decide.
  - unfold _classify_all_evidence_print.
    apply MT_bind_snd_nil; [done|]. intros _ h2.
    apply MT_bind_snd_nil; [done|]. intros d1 h3.
    apply MT_bind_snd_nil; [by apply liftW_query_snd|]. intros yes h4.
    apply MT_bind_snd_nil; [done|]. intros _ h5.
    apply MT_bind_snd_nil; [done|]. intros d2 h6.
    apply MT_bind_snd_nil; [by apply liftW_query_snd|]. intros no h7.
    apply MT_bind_snd_nil; [by rewrite Hvb|done].
  - unfold _classify_partial_evidence_print.
    apply MT_bind_snd_nil; [done|]. intros queries h2.
    apply MT_bind_snd_nil; [|done]. apply foldMT_snd_nil. intros [ts fs] l h3.
    unfold _classify_partial_step_print.
    apply MT_bind_snd_nil; [done|]. intros _ h4.
    apply MT_bind_snd_nil; [done|]. intros d1 h5.
    apply MT_bind_snd_nil; [by apply liftW_query_snd|]. intros pt h6.
    apply MT_bind_snd_nil; [done|]. intros _ h7.
    apply MT_bind_snd_nil; [done|]. intros d2 h8.
    apply MT_bind_snd_nil; [by apply liftW_query_snd|done].
Qed.

(** X12. Printing has no effect on the computation: whatever the [verbose]
    flag and the text of the numbers, [_query] and [classify] with their
    output give the score, the outcome and the store of the model without
    output. *)
Theorem verbose_does_not_change_outcome self (q : loc) h :
  (∀ a, (_query_print show self a).1 = _query self a)
  ∧ (classify_print show self q h).1 = classify self q h.
Proof. split; [intros a; apply _query_print_fst|apply classify_print_fst]. Qed.

(** X13. Without the [verbose] flag, [_query] and [classify] print
    nothing, also when they raise. *)
Theorem quiet_without_verbose self (q : loc) h :
  verbose self = false →
  (∀ a, (_query_print show self a).2 = [])
  ∧ (classify_print show self q h).2 = [].
Proof.
  intros Hvb. split; [intros a; by apply _query_print_snd|by apply classify_print_snd].
Qed.

(** X14. [classify_verbose] leaves the store as [classify] does; when
    [classify] returns, it prints after the output of [classify] one line,
    the target followed by [: True] or [: False] according to the answer,
    and returns nothing; when [classify] raises, it raises the same
    exception and prints nothing of its own. Without the [verbose] flag
    that line is all the output. *)
Theorem classify_verbose_prints self (q : loc) h :
  (classify_verbose show self q h).1.2 = (classify self q h).2
  ∧ match (classify self q h).1 with
    | Ok b =>
        (classify_verbose show self q h).1.1 = Ok tt
        ∧ (classify_verbose show self q h).2
          = (classify_print show self q h).2
            ++ [target self +:+ (if b then ": True" else ": False")]
    | Raise e =>
        (classify_verbose show self q h).1.1 = Raise e
        ∧ (classify_verbose show self q h).2 = (classify_print show self q h).2
    end
  ∧ (verbose self = false →
     (classify_verbose show self q h).2
     = match (classify self q h).1 with
       | Ok b => [target self +:+ (if b then ": True" else ": False")]
       | Raise e => []
       end).
Proof.
  pose proof (classify_print_snd self q h) as Hquiet.
  rewrite <- classify_print_fst in *. unfold classify_verbose, mbind, MT_bind.
  destruct (classify_print show self q h) as [[[b|e] h'] out]; cbn in *.
  - destruct b; cbn; (split_and!; [done..|]); intros Hvb; by rewrite (Hquiet Hvb).
  - split_and!; [done|done|done|]. intros Hvb. by rewrite (Hquiet Hvb).
Qed.

End VerboseOutput.

(** ** The order of the nodes, in exact arithmetic *)

Lemma mapR_Permutation {A B : Type} (f : A → result B) l l' ys :
  l ≡ₚ l' → mapR f l = Ok ys → ∃ ys', mapR f l' = Ok ys' ∧ ys ≡ₚ ys'.
Proof.
  intros Hperm. revert ys.
  induction Hperm as [|x l l' _ IH|x y l|l l' l'' _ IH1 _ IH2]; intros ys.
  - intros [= <-]. by exists [].
  - cbn [mapR]. destruct (f x) as [z|]; cbn; [|done].
    destruct (mapR f l) as [zs|]; cbn; [|done]. intros [= <-].
    destruct (IH zs) as (zs' & -> & Hzs); [done|]. cbn.
    exists (z :: zs'). split; [done|]. by constructor.
  - cbn [mapR]. destruct (f y) as [b|]; cbn; [|done].
    destruct (f x) as [a|]; cbn; [|done].
    destruct (mapR f l) as [zs|]; cbn; [|done]. intros [= <-].
    exists (a :: b :: zs). split; [done|]. constructor.
  - intros Hys. destruct (IH1 ys Hys) as (ys1 & Hys1 & Hp1).
    destruct (IH2 ys1 Hys1) as (ys2 & Hys2 & Hp2).
    exists ys2. split; [done|]. by etrans.
Qed.

Lemma mapR_Forall2 {A B : Type} (P : B → B → Prop) (f g : A → result B) l ys :
  (∀ x y, x ∈ l → f x = Ok y → ∃ y', g x = Ok y' ∧ P y y') →
  mapR f l = Ok ys → ∃ ys', mapR g l = Ok ys' ∧ Forall2 P ys ys'.
Proof.
  revert ys. induction l as [|x l IH]; intros ys Hfg; cbn [mapR].
  - intros [= <-]. by exists [].
  - destruct (f x) as [y|] eqn:Hfx; cbn; [|done].
    destruct (mapR f l) as [zs|]; cbn; [|done]. intros [= <-].
    destruct (Hfg x y) as (y' & -> & Hy); [apply list_elem_of_here|done|].
    destruct (IH zs) as (zs' & -> & Hzs); [|done|].
    { intros x' z Hin. apply Hfg. by apply list_elem_of_further. }
    cbn. exists (y' :: zs'). split; [done|]. by constructor.
Qed.

Section Commutative.
Context (op : Q → Q → Q).
Context (op_comp : ∀ x x' y y', (x == x')%Q → (y == y')%Q → (op x y == op x' y')%Q).
Context (op_swap : ∀ a x y, (op (op a x) y == op (op a y) x)%Q).

Lemma fold_left_Qeq l l' a a' :
  (a == a')%Q → Forall2 Qeq l l' → (fold_left op l a == fold_left op l' a')%Q.
Proof.
  intros Ha Hl. revert a a' Ha. induction Hl as [|x x' l l' Hx _ IH]; intros a a' Ha.
  - done.
  - cbn [fold_left]. apply IH. by apply op_comp.
Qed.

Lemma Forall2_Qeq_refl (l : list Q) : Forall2 Qeq l l.
Proof. induction l; constructor; [reflexivity|done]. Qed.

Lemma fold_left_Permutation l l' a :
  l ≡ₚ l' → (fold_left op l a == fold_left op l' a)%Q.
Proof.
  intros Hperm. revert a.
  induction Hperm as [|x l l' _ IH|x y l|l l' l'' _ IH1 _ IH2]; intros a.
  - reflexivity.
  - cbn [fold_left]. apply IH.
  - cbn [fold_left]. apply fold_left_Qeq; [apply op_swap|apply Forall2_Qeq_refl].
  - by rewrite IH1.
Qed.

End Commutative.

Lemma Qplus_swap (a x y : Q) : (a + x + y == a + y + x)%Q.
Proof. ring. Qed.

Lemma Qmult_swap (a x y : Q) : (a * x * y == a * y * x)%Q.
Proof. ring. Qed.

Lemma Qplus_comp' (x x' y y' : Q) : (x == x')%Q → (y == y')%Q → (x + y == x' + y')%Q.
Proof. by intros -> ->. Qed.

Lemma Qmult_comp' (x x' y y' : Q) : (x == x')%Q → (y == y')%Q → (x * y == x' * y')%Q.
Proof. by intros -> ->. Qed.

Lemma Q_gtb_comp (x x' y y' : Q) :
  (x == x')%Q → (y == y')%Q → gtb x y = gtb x' y'.
Proof. intros Hx Hy. cbn. by rewrite Hx, Hy. Qed.

(** The product of [reduce] is the product of all the factors, in any order. *)
Lemma reduce_Permutation (ps ps' : list Q) (s : Q) :
  ps ≡ₚ ps' → reduce Qmult ps = Ok s → ∃ s', reduce Qmult ps' = Ok s' ∧ (s == s')%Q.
Proof.
  intros Hperm. destruct ps as [|p ps]; [done|]. cbn. intros [= <-].
  destruct ps' as [|p' ps']; [by apply Permutation_nil_r in Hperm|].
  cbn. eexists. split; [done|].
  assert (∀ x xs, fold_left Qmult xs x == fold_left Qmult (x :: xs) 1)%Q as Hone.
  { intros x xs. cbn [fold_left].
    apply fold_left_Qeq; [apply Qmult_comp'| |apply Forall2_Qeq_refl].
    symmetry. apply Qmult_1_l. }
  rewrite (Hone p ps), (Hone p' ps').
  by apply fold_left_Permutation; [apply Qmult_comp'|apply Qmult_swap|].
Qed.

Lemma completions_cons d u us :
  completions d (u :: us)
  = completions (<[u := "t"]> d) us ++ completions (<[u := "f"]> d) us.
Proof.
  unfold completions. cbn [length assignments]. by rewrite map_app, !map_map.
Qed.

Lemma completions_Permutation d us us' :
  us ≡ₚ us' → completions d us ≡ₚ completions d us'.
Proof.
  intros Hperm. revert d.
  induction Hperm as [|x l l' _ IH|x y l|l l' l'' _ IH1 _ IH2]; intros d.
  - done.
  - rewrite !completions_cons. by rewrite !IH.
  - destruct (decide (x = y)) as [->|Hne]; [done|].
    rewrite !completions_cons.
    rewrite (insert_insert_ne d y x "t" "t"), (insert_insert_ne d y x "t" "f"),
      (insert_insert_ne d y x "f" "t"), (insert_insert_ne d y x "f" "f") by done.
    rewrite <- !app_assoc. apply Permutation_app_head.
    rewrite !app_assoc. apply Permutation_app_tail. apply Permutation_app_comm.
  - by rewrite IH1.
Qed.

Section Order.
Context (self self' : BBN Q).
Context (Htarget : target self = target self').
Context (Hgraph : graph self ≡ₚ graph self').

Lemma order_keys k : k ∈ map fst (graph self) ↔ k ∈ map fst (graph self').
Proof. by rewrite Hgraph. Qed.

Lemma order_query a s :
  _query self a = Ok s → ∃ s', _query self' a = Ok s' ∧ (s == s')%Q.
Proof.
  rewrite !_query_factors.
  destruct (mapR (factor a) (scored_nodes self)) as [ps|] eqn:Hm; cbn; [|done].
  intros Hs.
  destruct (mapR_Permutation (factor a) (scored_nodes self) (scored_nodes self') ps)
    as (ps' & -> & Hps).
  { unfold scored_nodes. by rewrite Hgraph. }
  { done. }
  cbn. by apply (reduce_Permutation ps).
Qed.

Lemma order_unknowns d : _get_unknowns self d ≡ₚ _get_unknowns self' d.
Proof. unfold _get_unknowns. by rewrite Htarget, Hgraph. Qed.

Lemma order_score2 c pt pf :
  score2 self c = Ok (pt, pf) →
  ∃ p', score2 self' c = Ok p' ∧ (pt == p'.1)%Q ∧ (pf == p'.2)%Q.
Proof.
  intros [Ht Hf]%score2_Ok. unfold score in Ht, Hf.
  destruct (order_query _ _ Ht) as (pt' & Ht' & Hpt).
  destruct (order_query _ _ Hf) as (pf' & Hf' & Hpf).
  exists (pt', pf'). split; [|done]. apply score2_Ok. unfold score.
  by rewrite <- Htarget.
Qed.

Lemma order_result d b :
  classify_result self d = Ok b → classify_result self' d = Ok b.
Proof.
  unfold classify_result. case_bool_decide as Hd; [done|].
  assert (forallb (in_graph self') (map fst (map_to_list d))
          = forallb (in_graph self) (map fst (map_to_list d))) as ->.
  { destruct (forallb (in_graph self) _) eqn:Hall.
    - apply in_graph_all. pose proof (proj1 (in_graph_all _ _) Hall) as Hk.
      intros var Hvar. by apply order_keys, Hk.
    - apply in_graph_some. apply in_graph_some in Hall as (var & Hvar & Hnot).
      exists var. split; [done|]. by rewrite <- order_keys. }
  destruct (negb _); [done|].
  pose proof (order_unknowns d) as Hus.
  case_bool_decide as Hnil.
  - assert (_get_unknowns self' d = []) as Hnil'
      by (apply Permutation_nil; by rewrite <- Hnil).
    rewrite (bool_decide_eq_true_2 _ Hnil').
    destruct (score self "t" d) as [yes|] eqn:Hyes; cbn; [|done].
    destruct (score self "f" d) as [no|] eqn:Hno; cbn; [|done]. intros [= <-].
    destruct (order_score2 d yes no) as ([yes' no'] & [-> ->]%score2_Ok & Hy & Hn).
    { by apply score2_Ok. }
    cbn. f_equal. symmetry. by apply Q_gtb_comp.
  - rewrite bool_decide_eq_false_2.
    2:{ intros Hnil'. apply Hnil, Permutation_nil. by rewrite <- Hnil'. }
    destruct (mapR (score2 self) _) as [pairs|] eqn:Hm; cbn; [|done]. intros [= <-].
    destruct (mapR_Permutation (score2 self) (completions d (_get_unknowns self d))
                (completions d (_get_unknowns self' d)) pairs)
      as (pairs1 & Hm1 & Hp1); [by apply completions_Permutation|done|].
    destruct (mapR_Forall2 (λ p p', (p.1 == p'.1)%Q ∧ (p.2 == p'.2)%Q)
                (score2 self) (score2 self')
                (completions d (_get_unknowns self' d)) pairs1) as (pairs2 & -> & Hp2).
    { intros c [pt pf] _ Hc. by apply order_score2. }
    { done. }
    cbn. f_equal. symmetry. apply Q_gtb_comp; unfold sum; cbn [add zero Q_Number].
    + rewrite (fold_left_Permutation Qplus Qplus_comp' Qplus_swap _ (pairs1.*1))
        by by rewrite Hp1.
      apply fold_left_Qeq; [apply Qplus_comp'|reflexivity|].
      clear -Hp2. induction Hp2 as [|?? ?? [??] ? IH]; cbn; by constructor.
    + rewrite (fold_left_Permutation Qplus Qplus_comp' Qplus_swap _ (pairs1.*2))
        by by rewrite Hp1.
      apply fold_left_Qeq; [apply Qplus_comp'|reflexivity|].
      clear -Hp2. induction Hp2 as [|?? ?? [??] ? IH]; cbn; by constructor.
Qed.

End Order.

(** X15. In exact arithmetic the order of the nodes in the graph does not
    matter: for two networks with the same target whose graphs list the same
    items in a different order, a score of [_query] on the one is a score on
    the other, up to equality of rationals, and an answer of [classify] on
    the one is the answer on the other. Reordering pairwise differently
    labelled nodes given to the constructor reorders the graph in this
    way. *)
Theorem classify_order_independent (self self' : BBN Q) (q q' : loc) h h' d :
  target self = target self' → graph self ≡ₚ graph self' →
  h !! q = Some d → h' !! q' = Some d →
  (∀ a s, _query self a = Ok s → ∃ s', _query self' a = Ok s' ∧ (s == s')%Q)
  ∧ (∀ b, (classify self q h).1 = Ok b ↔ (classify self' q' h').1 = Ok b)
  ∧ (∀ nodes nodes' tgt vb vb',
       NoDup (map label nodes) → nodes ≡ₚ nodes' →
       graph (BBN_init (R:=Q) nodes tgt vb) ≡ₚ graph (BBN_init nodes' tgt vb')).
Proof.
  intros Htgt Hgraph Hq Hq'. split_and!.
  - intros a s. by apply order_query.
  - intros b. rewrite (classify_result_eq _ _ _ _ Hq), (classify_result_eq _ _ _ _ Hq').
    split; by apply order_result.
  - intros nodes nodes' tgt vb vb' Hnd Hperm.
    destruct (BBN_init_graph_items nodes tgt vb) as (_ & _ & Hg).
    destruct (BBN_init_graph_items nodes' tgt vb') as (_ & _ & Hg').
    rewrite (Hg Hnd), Hg'; [by apply Permutation_map|].
    pose proof (Permutation_map label Hperm) as Hlabels. by rewrite <- Hlabels.
Qed.

(** ** The caller's dictionary after a failure *)

(** X16. Without unknowns, a failure while scoring does not undo the write
    into the caller's dictionary: when the score with the target true
    raises, [classify] raises the same exception and leaves the target bound
    to 't'; when only the score with the target false raises, it leaves the
    target bound to 'f'. *)
Theorem classify_failure_store {R : Type} `{Number R} (self : BBN R) (q : loc)
  (h : heap) (d : dict) (e : exn) :
  h !! q = Some d → valid_query self d → _get_unknowns self d = [] →
  (score self "t" d = Raise e →
   classify self q h = (Raise e, <[q := <[target self := "t"]> d]> h))
  ∧ (∀ yes, score self "t" d = Ok yes → score self "f" d = Raise e →
     classify self q h = (Raise e, <[q := <[target self := "f"]> d]> h)).
Proof.
  intros Hq Hv Hus.
  rewrite (classify_valid _ _ _ _ Hq Hv), (bool_decide_eq_true_2 _ Hus).
  rewrite (_classify_all_evidence_eq _ _ _ _ Hq). split.
  - by intros ->.
  - intros yes -> ->. done.
Qed.

(** * The rule inducer *)

Module PrismFacts.
Import Prism.

(** ** Column names *)

Lemma column_names_702_NoDup : NoDup (column_names 702).
Proof. refine (bool_decide_eq_true_1 _ _). vm_compute. reflexivity. Qed.

Lemma column_names_lookup n i :
  i < n → column_names n !! i = Some (column_name i).
Proof.
  intros Hi. unfold column_names. rewrite list_lookup_fmap.
  by rewrite lookup_seq_lt.
Qed.

(** X17. The names generated for the columns of a file without header line
    are pairwise different exactly when there are at most 702 columns: the
    numbering after the letter wraps around, and from column 702 on the
    names [A1], [B1], ... come a second time. *)
Theorem column_names_distinct (n : nat) :
  (NoDup (column_names n) ↔ n ≤ 702)
  ∧ column_name 702 = column_name 26.
Proof.
  split; [|by vm_compute]. split.
  - intros Hnd. destruct (decide (n ≤ 702)) as [|Hgt]; [done|]. exfalso.
    assert (26 = 702); [|lia].
    eapply (NoDup_lookup (column_names n)); [done| |].
    + apply column_names_lookup. lia.
    + rewrite column_names_lookup by lia. f_equal; by vm_compute.
  - intros Hle. pose proof column_names_702_NoDup as Hnd.
    replace 702 with (n + (702 - n)) in Hnd by lia.
    unfold column_names in Hnd |- *. rewrite seq_app, map_app in Hnd.
    by apply NoDup_app in Hnd as [Hnd _].
Qed.

(** ** Counting *)

Section Dict.
Context {V : Type}.
Implicit Types (d : list (string * V)).

Lemma dict_get_set_eq d key v : dict_get (dict_set d key v) key = Some v.
Proof.
  induction d as [|[k w] d IH]; cbn.
  - by rewrite bool_decide_eq_true_2.
  - case_bool_decide as Hk; cbn.
    + by rewrite (bool_decide_eq_true_2 _ Hk).
    + by rewrite (bool_decide_eq_false_2 _ Hk).
Qed.

Lemma dict_get_set_ne d key key' v :
  key ≠ key' → dict_get (dict_set d key v) key' = dict_get d key'.
Proof.
  intros Hne. induction d as [|[k w] d IH]; cbn.
  - by rewrite bool_decide_eq_false_2.
  - case_bool_decide as Hk; cbn.
    + subst k. by rewrite !(bool_decide_eq_false_2 _ Hne).
    + by rewrite IH.
Qed.

Lemma dict_set_set d key v v' :
  dict_set (dict_set d key v) key v' = dict_set d key v'.
Proof.
  induction d as [|[k w] d IH]; cbn.
  - by rewrite bool_decide_eq_true_2.
  - case_bool_decide as Hk; cbn.
    + by rewrite (bool_decide_eq_true_2 _ Hk).
    + by rewrite (bool_decide_eq_false_2 _ Hk), IH.
Qed.

End Dict.

Section Counting.
Context (class_column attr curr_class : string).

Lemma __increment_counts_ok (counts : counts_t) inner (r : row) value cls :
  dict_get counts attr = Some inner →
  r !! attr = Some value → r !! class_column = Some cls →
  __increment_counts class_column counts r attr curr_class
  = Ok (dict_set counts attr
          (dict_set inner value
             {| tot := match dict_get inner value with
                       | Some c => S (tot c)
                       | None => 1
                       end;
                cnt := match dict_get inner value with
                       | Some c => cnt c
                       | None => 0
                       end + (if bool_decide (cls = curr_class) then 1 else 0) |})).
Proof.
  intros Hinner Hvalue Hcls. unfold __increment_counts, dict_getitem, getitem.
  rewrite Hinner, Hvalue, Hcls. cbn.
  destruct (dict_get inner value) as [c|]; cbn;
    (case_bool_decide; cbn;
     [rewrite !dict_get_set_eq; cbn; rewrite !dict_get_set_eq; cbn;
      rewrite !dict_set_set|];
     rewrite ?Nat.add_1_r, ?Nat.add_0_r; done).
Qed.

Lemma count_rows_from (rows : list row) (counts : counts_t) inner :
  dict_get counts attr = Some inner →
  Forall (λ r, is_Some (r !! attr) ∧ is_Some (r !! class_column)) rows →
  ∃ counts' inner',
    foldR (λ counts r, __increment_counts class_column counts r attr curr_class)
          rows counts = Ok counts'
    ∧ dict_get counts' attr = Some inner'
    ∧ (∀ a, a ≠ attr → dict_get counts' a = dict_get counts a)
    ∧ ∀ v, dict_get inner' v
           = bump (dict_get inner v) (length (rows_with attr v rows))
               (length (rows_with_class class_column attr v curr_class rows)).
Proof.
  intros Hinner Hrows. revert counts inner Hinner.
  induction Hrows as [|r rows [[value Hvalue] [cls Hcls]] _ IH]; intros counts inner Hinner.
  - exists counts, inner. split_and!; [done..|]. intros v. cbn.
    destruct (dict_get inner v) as [[t c]|]; cbn; [|done].
    by rewrite !Nat.add_0_r.
  - cbn [foldR]. rewrite (__increment_counts_ok _ _ _ _ _ Hinner Hvalue Hcls).
    cbn [mbind result_bind].
    edestruct IH as (counts' & inner' & Hrun & Hget & Hother & Hv).
    { apply dict_get_set_eq. }
    exists counts', inner'. split_and!; [done|done| |].
    { intros a Ha. rewrite Hother by done. by apply dict_get_set_ne. }
    intros v. rewrite Hv. unfold rows_with, rows_with_class.
    destruct (decide (value = v)) as [<-|Hne].
    + rewrite dict_get_set_eq. rewrite filter_cons_True by done.
      destruct (decide (cls = curr_class)) as [->|Hc].
      * rewrite filter_cons_True by done.
        rewrite (bool_decide_eq_true_2 (curr_class = curr_class)) by done.
        destruct (dict_get inner value) as [[t c]|]; cbn [bump tot cnt length];
          apply (f_equal Some), (f_equal2 Build_counter); lia.
      * rewrite filter_cons_False by (intros [_ ?]; congruence).
        rewrite (bool_decide_eq_false_2 _ Hc).
        destruct (dict_get inner value) as [[t c]|]; cbn [bump tot cnt length];
          apply (f_equal Some), (f_equal2 Build_counter); lia.
    + rewrite dict_get_set_ne by done.
      rewrite !filter_cons_False; [done|intros [? _]; congruence|congruence].
Qed.

End Counting.

Lemma rows_with_class_le class_column attr v cls (rows : list row) :
  length (rows_with_class class_column attr v cls rows)
  ≤ length (rows_with attr v rows).
Proof.
  unfold rows_with, rows_with_class. induction rows as [|r rows IH]; [done|].
  destruct (decide (r !! attr = Some v)) as [Hv|Hv].
  - rewrite (filter_cons_True (λ r, r !! attr = Some v)) by done. cbn [length].
    destruct (decide (r !! class_column = Some cls)).
    + rewrite filter_cons_True by done. cbn [length]. lia.
    + rewrite filter_cons_False by tauto. lia.
  - by rewrite !filter_cons_False by tauto.
Qed.

(** X18. When every row has a value for the class column and for each
    attribute counted, the counting loops of [generate_rules] do not raise,
    and for each attribute the counters they build hold, under each value
    that occurs in some row for that attribute and under no other, the
    number of rows with that value as ['tot'] and the number of those that
    are of the current class as ['cnt']; hence ['tot'] is at least one and
    ['cnt'] at most ['tot']: the quotient taken in [__choose_test] never
    divides by zero. *)
Theorem count_values_counts (class_column : string) (rows : list row)
  (curr_attr_list : list string) (curr_class : string) :
  (∀ r, r ∈ rows → is_Some (r !! class_column)) →
  (∀ r a, r ∈ rows → a ∈ curr_attr_list → is_Some (r !! a)) →
  ∃ counts,
    count_values class_column rows curr_attr_list curr_class = Ok counts
    ∧ ∀ attr, attr ∈ curr_attr_list →
        ∃ inner,
          dict_get counts attr = Some inner
          ∧ (∀ v, dict_get inner v
                  = match rows_with attr v rows with
                    | [] => None
                    | _ :: _ =>
                        Some {| tot := length (rows_with attr v rows);
                                cnt := length (rows_with_class class_column attr v
                                                 curr_class rows) |}
                    end)
          ∧ (∀ v c, dict_get inner v = Some c → 1 ≤ tot c ∧ cnt c ≤ tot c).
Proof.
  intros Hclass Hattrs.
  set (good := λ (counts : counts_t) attr,
         ∃ inner, dict_get counts attr = Some inner
           ∧ ∀ v, dict_get inner v
                  = bump None (length (rows_with attr v rows))
                      (length (rows_with_class class_column attr v curr_class rows))).
  assert (∀ attrs counts0,
            (∀ a, a ∈ attrs → a ∈ curr_attr_list) →
            ∃ counts,
              foldR (λ counts attr, count_rows class_column rows attr curr_class counts)
                    attrs counts0 = Ok counts
              ∧ (∀ a, good counts0 a → good counts a)
              ∧ ∀ a, a ∈ attrs → good counts a) as Hloop.
  { induction attrs as [|attr attrs IH]; intros counts0 Hsub.
    - exists counts0. split_and!; [done|done|]. intros a Ha. by apply elem_of_nil in Ha.
    - cbn [foldR].
      destruct (count_rows_from class_column attr curr_class rows
                  (dict_set counts0 attr []) [])
        as (counts1 & inner1 & Hrun & Hget & Hother & Hv).
      { apply dict_get_set_eq. }
      { apply Forall_forall. intros r Hr. split; [|by apply Hclass].
        apply Hattrs; [done|]. apply Hsub, list_elem_of_here. }
      assert (count_rows class_column rows attr curr_class counts0 = Ok counts1)
        as -> by exact Hrun.
      cbn [mbind result_bind].
      assert (good counts1 attr) as Hgood1 by (by exists inner1).
      assert (∀ a, good counts0 a → good counts1 a) as Hkeep.
      { intros a Ha. destruct (decide (a = attr)) as [->|Hne]; [done|].
        destruct Ha as (inner & Hin & Hvals). exists inner. split; [|done].
        rewrite Hother by done. by rewrite dict_get_set_ne. }
      destruct (IH counts1) as (counts & Hrun' & Hkeep' & Hgood').
      { intros a Ha. apply Hsub. by apply list_elem_of_further. }
      exists counts. split_and!; [done|auto|].
      intros a [->|Ha]%elem_of_cons; auto. }
  destruct (Hloop curr_attr_list []) as (counts & Hrun & _ & Hgood); [done|].
  exists counts. split; [done|]. intros attr Hattr.
  destruct (Hgood attr Hattr) as (inner & Hget & Hvals).
  exists inner. split_and!; [done| |].
  - intros v. rewrite Hvals. by destruct (rows_with attr v rows).
  - intros v c. rewrite Hvals.
    pose proof (rows_with_class_le class_column attr v curr_class rows) as Hle.
    destruct (rows_with attr v rows) as [|r0 rs]; [done|].
    cbn [bump length] in Hle |- *. intros [= <-]. cbn [tot cnt]. lia.
Qed.

End PrismFacts.

(** * The further properties at concrete inputs *)

Ltac prove_by_computation :=
  match goal with
  | |- ?P => refine (bool_decide_eq_true_1 P _); vm_compute; reflexivity
  end.

Lemma truth_values_check (d : dict) :
  forallb (λ kv, bool_decide (kv.2 = "t" ∨ kv.2 = "f")) (map_to_list d) = true →
  ∀ var x, d !! var = Some x → x = "t" ∨ x = "f".
Proof.
  rewrite forallb_forall. intros Hall var x Hx.
  apply elem_of_map_to_list, list_elem_of_In, Hall in Hx.
  exact (bool_decide_eq_true_1 _ Hx).
Qed.

Lemma parents_closed_check {R : Type} (self : BBN R) :
  forallb (λ item, forallb (λ p, bool_decide (p ∈ map fst (graph self) ∨ p = target self))
                           (parents item.2))
          (scored_nodes self) = true →
  ∀ item p, item ∈ scored_nodes self → p ∈ parents item.2 →
            p ∈ map fst (graph self) ∨ p = target self.
Proof.
  rewrite forallb_forall. intros Hall item p Hitem Hp.
  apply list_elem_of_In, Hall in Hitem. rewrite forallb_forall in Hitem.
  apply list_elem_of_In, Hitem in Hp. exact (bool_decide_eq_true_1 _ Hp).
Qed.

Lemma tables_complete_check {R : Type} (self : BBN R) :
  forallb (λ item, forallb (λ bs, bool_decide (is_Some (p_table item.2 !! join (sym <$> bs))))
                           (assignments (length (parents item.2))))
          (scored_nodes self) = true →
  ∀ item bs, item ∈ scored_nodes self → length bs = length (parents item.2) →
             is_Some (p_table item.2 !! join (sym <$> bs)).
Proof.
  rewrite forallb_forall. intros Hall item bs Hitem Hlen.
  apply list_elem_of_In, Hall in Hitem. rewrite forallb_forall in Hitem.
  pose proof (assignments_complete bs) as Hbs. rewrite Hlen in Hbs.
  apply list_elem_of_In, Hitem in Hbs. exact (bool_decide_eq_true_1 _ Hbs).
Qed.

Lemma not_a_parent_check {R : Type} (self : BBN R) (var : string) :
  forallb (λ item, bool_decide (var ∉ parents item.2)) (scored_nodes self) = true →
  ∀ item, item ∈ scored_nodes self → var ∉ parents item.2.
Proof.
  rewrite forallb_forall. intros Hall item Hitem.
  apply list_elem_of_In, Hall in Hitem. exact (bool_decide_eq_true_1 _ Hitem).
Qed.

Lemma unit_tables_check (self : BBN Q) :
  forallb (λ item, forallb (λ kv, Qle_bool 0 kv.2 && Qle_bool kv.2 1)
                           (map_to_list (p_table item.2)))
          (scored_nodes self) = true →
  ∀ item key p, item ∈ scored_nodes self → p_table item.2 !! key = Some p →
                (0 <= p <= 1)%Q.
Proof.
  rewrite forallb_forall. intros Hall item key p Hitem Hp.
  apply list_elem_of_In, Hall in Hitem. rewrite forallb_forall in Hitem.
  apply elem_of_map_to_list, list_elem_of_In, Hitem, andb_true_iff in Hp as [H0 H1].
  split; by apply Qle_bool_iff.
Qed.

Lemma classify_exceptions_witness :
  (classify inputs.roots 0 [{[ "d" := "t" ]}]).1 = Raise TypeError
  ↔ scored_nodes inputs.roots = [].
Proof.
  destruct (classify_exceptions inputs.roots 0 [{[ "d" := "t" ]}] {[ "d" := "t" ]})
    as [_ Hiff].
  - reflexivity.
  - apply Hiff. apply valid_query_check; vm_compute; reflexivity.
Defined.

Lemma classify_KeyError_cause_witness :
  (∃ item, item ∈ scored_nodes inputs.dangling ∧ "zz" ∈ parents item.2
           ∧ ("zz" ∉ map fst (graph inputs.dangling)) ∧ "zz" ≠ target inputs.dangling)
  ∨ (∃ item c v vals,
       item ∈ scored_nodes inputs.dangling
       ∧ c ∈ completions {[ "b" := "t" ]} (_get_unknowns inputs.dangling {[ "b" := "t" ]})
       ∧ (v = "t" ∨ v = "f")
       ∧ mapR (getitem (<[target inputs.dangling := v]> c)) (parents item.2) = Ok vals
       ∧ "zz" = join vals ∧ p_table item.2 !! "zz" = None).
Proof.
  apply (classify_KeyError_cause inputs.dangling 0 [{[ "b" := "t" ]}] {[ "b" := "t" ]} "zz").
  - reflexivity.
  - apply valid_query_check; vm_compute; reflexivity.
  - vm_compute. reflexivity.
Defined.

Lemma classify_total_witness :
  ∃ b, (classify (main.bbn Qmake) 0 [main.query]).1 = Ok b.
Proof.
  apply (classify_total (main.bbn Qmake) 0 [main.query] main.query).
  - reflexivity.
  - apply valid_query_check; vm_compute; reflexivity.
  - apply truth_values_check. vm_compute. reflexivity.
  - vm_compute. discriminate.
  - apply parents_closed_check. vm_compute. reflexivity.
  - apply tables_complete_check. vm_compute. reflexivity.
Defined.

Lemma target_evidence_ignored_witness :
  (classify (main.bbn Qmake) 0 [<["hd" := "t"]> main.query]).1
  = (classify (main.bbn Qmake) 0 [main.query]).1.
Proof.
  apply (target_evidence_ignored (main.bbn Qmake) 0 0
           [<["hd" := "t"]> main.query] [main.query] main.query "t").
  - reflexivity.
  - reflexivity.
  - refute_by_computation.
  - prove_by_computation.
Defined.

Lemma classify_again_witness :
  (classify (main.bbn Qmake) 0 (classify (main.bbn Qmake) 0 [main.query]).2).1
  = (classify (main.bbn Qmake) 0 [main.query]).1.
Proof.
  apply (classify_again (main.bbn Qmake) 0 [main.query] main.query).
  - reflexivity.
  - prove_by_computation.
Defined.

Lemma symbol_other_than_t_is_false_witness :
  (classify (main.bbn Qmake) 0 [<["cp" := "x"]> main.query]).1
  = (classify (main.bbn Qmake) 0 [<["cp" := "f"]> main.query]).1.
Proof.
  apply (symbol_other_than_t_is_false (main.bbn Qmake) 0 0
           [<["cp" := "x"]> main.query] [<["cp" := "f"]> main.query]
           main.query "cp" "x").
  - reflexivity.
  - reflexivity.
  - discriminate.
  - apply not_a_parent_check. vm_compute. reflexivity.
Defined.

Lemma root_tables_irrelevant_witness :
  classify (main.bbn Qmake) 0 [main.query] = classify samples.other_priors 0 [main.query].
Proof.
  apply (root_tables_irrelevant (main.bbn Qmake) samples.other_priors 0 [main.query]).
  split; [reflexivity|].
  let g := eval vm_compute in (graph (main.bbn Qmake)) in
  change (graph (main.bbn Qmake)) with g.
  let g := eval vm_compute in (graph samples.other_priors) in
  change (graph samples.other_priors) with g.
  repeat (constructor; [split_and!; [reflexivity|reflexivity|]|]);
    [intros Hp; first [reflexivity|by destruct Hp]..|constructor].
Defined.

Lemma _get_unknowns_vars_witness :
  _get_unknowns (main.bbn Qmake) main.query_partial
  = filter (λ k, main.query_partial !! k = None) (vars (main.bbn Qmake)).
Proof.
  apply (_get_unknowns_vars
           [main.e Qmake; main.d Qmake; main.hd Qmake; main.cp Qmake; main.bp Qmake]
           "hd" true main.query_partial).
  prove_by_computation.
Defined.

Lemma _build_queries_store_witness :
  ∃ queries h',
    _build_queries 0 ["x"; "y"] [∅] = (Ok queries, [∅] ++ h') ∧ length h' = 6.
Proof.
  destruct (_build_queries_store 0 ["x"; "y"] [∅] ∅) as (queries & h' & Hrun & Hlen & _).
  - reflexivity.
  - exists queries, h'. split; [exact Hrun|exact Hlen].
Defined.

Lemma _query_unit_interval_witness :
  ∃ s, _query (main.bbn Qmake) (<["hd" := "t"]> main.query) = Ok s
       ∧ (0 <= s <= 1)%Q.
Proof.
  eexists. split; [vm_compute; reflexivity|].
  apply (_query_unit_interval (main.bbn Qmake) (<["hd" := "t"]> main.query)).
  - apply unit_tables_check. vm_compute. reflexivity.
  - vm_compute. reflexivity.
Defined.

Lemma quiet_without_verbose_witness :
  (classify_print (λ _ : Q, EmptyString) inputs.incomplete 0 [main.query]).2 = [].
Proof.
  apply (quiet_without_verbose (λ _ : Q, EmptyString) inputs.incomplete 0 [main.query]).
  reflexivity.
Defined.

Lemma classify_order_independent_witness :
  (classify (main.bbn Qmake) 0 [main.query]).1 = Ok true
  ↔ (classify samples.reordered 0 [main.query]).1 = Ok true.
Proof.
  destruct (classify_order_independent (main.bbn Qmake) samples.reordered 0 0
              [main.query] [main.query] main.query) as (_ & Hiff & _).
  - reflexivity.
  - replace (graph samples.reordered) with (reverse (graph (main.bbn Qmake)))
      by (vm_compute; reflexivity).
    symmetry. apply reverse_Permutation.
  - reflexivity.
  - reflexivity.
  - apply Hiff.
Defined.

Lemma classify_failure_store_witness :
  classify inputs.incomplete 0 [main.query]
  = (Raise (KeyError "ft"), [<["hd" := "t"]> main.query]).
Proof.
  apply (classify_failure_store inputs.incomplete 0 [main.query] main.query
           (KeyError "ft")).
  - reflexivity.
  - apply valid_query_check; vm_compute; reflexivity.
  - vm_compute. reflexivity.
  - vm_compute. reflexivity.
Defined.

Lemma count_values_counts_witness :
  ∃ counts,
    Prism.count_values "B" samples.rows ["A"] "yes" = Ok counts
    ∧ ∃ inner,
        Prism.dict_get counts "A" = Some inner
        ∧ Prism.dict_get inner "x" = Some {| Prism.tot := 2; Prism.cnt := 1 |}.
Proof.
  destruct (PrismFacts.count_values_counts "B" samples.rows ["A"] "yes")
    as (counts & Hrun & Hcounts).
  - intros r Hr. revert r Hr. apply Forall_forall. repeat constructor; by eexists.
  - intros r a Hr ->%list_elem_of_singleton. revert r Hr.
    apply Forall_forall. repeat constructor; by eexists.
  - exists counts. split; [exact Hrun|].
    destruct (Hcounts "A") as (inner & Hget & Hvals & _); [apply list_elem_of_here|].
    exists inner. split; [exact Hget|]. rewrite Hvals. reflexivity.
Defined.
